(** * Product-List-Embedding: indexing pipeline, retrieval and fusion

    A shallow embedding of [firestore_vector_db.py], [jina_clip_embedding.py],
    [multimodal_rag_system.py], and of the environment check of [utils.py]
    and the search endpoints of [server.py].

    - Python floats are IEEE-754 binary64 numbers: Rocq's primitive floats.
    - Python dicts with string keys are [gmap string value]; the insertion
      ordered dict used for the fusion merge is an association list.
    - Exceptions are an explicit [outcome]; a [try]/[except] is [catch].
    - Firestore, the embedding model and the network are external: they are
      records of functions (what a call answers, or that it raises).
    - What the Python source leaves to the platform under it ([pow] of the
      C library, the summation inside [numpy.dot], the order in which the
      interpreter's sort leaves keys that [<] does not order) is a class
      [platform]: every fact below holds for whatever the platform does. *)

From Stdlib Require Import ZArith List Floats Sorted Permutation Lia.
From stdpp Require Import gmap strings list fin_maps infinite.

Open Scope string_scope.

(** ** Python values *)

(** The values of a Firestore document or of a search hit that the model
    covers: null, a string, a double, a vector.  [VVec] is a sequence of
    floats: the Firestore [Vector] that [to_dict()] returns for a vector
    field, and also the Python list that [search_multimodal] computes (both
    are sequences: same truth value, same [zip], same [list(..)], neither is
    hashable).  They differ under [<] only, which the code applies to
    document fields alone: there a [VVec] is a [Vector]. *)
Inductive value :=
| VNone
| VStr (s : string)
| VNum (x : float)
| VVec (v : list float).

Abbreviation dict := (gmap string value).

(** [d.get(k)]: [None] when the key is missing. *)
Definition get (d : dict) (k : string) : value := default VNone (d !! k).

(** [d.get(k, [])]. *)
Definition get_or_empty (d : dict) (k : string) : value := default (VVec []) (d !! k).

(** Truth value of a Python object ([if x:]). *)
Definition truthy (v : value) : bool :=
  match v with
  | VNone => false
  | VStr s => negb (String.eqb s "")
  | VNum x => negb (PrimFloat.eqb x 0)
  | VVec [] => false
  | VVec (_ :: _) => true
  end.

(** Truth value of an [Optional[List[float]]]. *)
Definition nonempty (o : option (list float)) : bool :=
  match o with
  | Some (_ :: _) => true
  | _ => false
  end.

(** ** Exceptions *)

Inductive exn :=
| KeyError
| TypeError
| ValueError
| ZeroDivisionError
| ProviderError
| NetworkError
| DecodeError
| StoreError
| NotFound.

Inductive outcome (A : Type) :=
| Ok (a : A)
| Raise (e : exn).
Arguments Ok {A} a.
Arguments Raise {A} e.

#[global] Instance outcome_bind : MBind outcome := fun A B f m =>
  match m with
  | Ok a => f a
  | Raise e => Raise e
  end.

(** [try: m  except: h]. *)
Definition catch {A} (m : outcome A) (h : exn -> outcome A) : outcome A :=
  match m with
  | Ok a => Ok a
  | Raise e => h e
  end.

Definition is_ok {A} (m : outcome A) : bool :=
  match m with
  | Ok _ => true
  | Raise _ => false
  end.

(** The list a call returned ([[]] when it raised). *)
Definition returned {A} (m : outcome (list A)) : list A :=
  match m with
  | Ok l => l
  | Raise _ => []
  end.

Fixpoint mapM {A B} (f : A -> outcome B) (l : list A) : outcome (list B) :=
  match l with
  | [] => Ok []
  | x :: l' => y ← f x; ys ← mapM f l'; Ok (y :: ys)
  end.

(** ** The platform

    Three results are not determined by the Python source:
    - [pow_half x] is [pow(x, 0.5)] of the C library, which CPython calls
      for [x ** 0.5]; it need not be the correctly rounded square root;
    - [blas_sum] is the summation inside [numpy.dot]: BLAS chooses how the
      additions are grouped;
    - [nan_order keys] are the choices of the interpreter's sort when a NaN
      is among the [keys]: [<] does not order such keys, and the result
      depends on which comparisons the sort happens to make.
    Nothing is assumed about any of them. *)
Class platform := {
  pow_half : float -> float;
  blas_sum : list float -> float;
  nan_order : list value -> list nat;
}.

(** ** Float arithmetic on sequences *)

(** [zip(a, b)] stops at the end of the shorter sequence. *)
Fixpoint zip {A B} (a : list A) (b : list B) : list (A * B) :=
  match a, b with
  | x :: a', y :: b' => (x, y) :: zip a' b'
  | _, _ => []
  end.

(** [sum(..)]: starts from 0 and adds from the left. *)
Definition fsum (l : list float) : float := fold_left PrimFloat.add l 0%float.

(** [np.dot] of two one-dimensional arrays of the same length: the products
    of the components, each a binary64 number, summed by the library. *)
Definition np_dot `{platform} (a b : list float) : float :=
  blas_sum (map (fun p => PrimFloat.mul (fst p) (snd p)) (zip a b)).

(** [calculate_dot_product_score]: [np.dot] raises [ValueError] on shapes
    that are not aligned, which the method turns into [0.0]. *)
Definition calculate_dot_product_score `{platform} (vec1 vec2 : list float) : float :=
  let dot_product :=
    if Nat.eqb (length vec1) (length vec2) then Ok (np_dot vec1 vec2)
    else Raise ValueError in
  match dot_product with
  | Ok d => d
  | Raise _ => 0%float
  end.

(** [iv ** 0.5] for a float [iv] that is not negative, as CPython's
    [float_pow] computes it: NaN, the infinities, zero and one are answered
    by the interpreter, any other base is handed to the C library.  (A
    negative base would give a complex number; the bases here are sums of
    squares, which are never negative: [fsum_squares_not_negative].) *)
Definition float_pow_half `{platform} (iv : float) : float :=
  if PrimFloat.is_nan iv then iv
  else if PrimFloat.is_infinity iv then PrimFloat.abs iv
  else if PrimFloat.is_zero iv then 0%float
  else if PrimFloat.eqb iv 1 then 1%float
  else pow_half iv.

(** The local function [cosine_similarity] of [search_multimodal].  A float
    is falsy exactly when it equals zero ([is_zero], true of [0.0] and of
    [-0.0]); Python's float division raises on a zero divisor. *)
Definition cosine_similarity `{platform} (a b : list float) : outcome float :=
  let dot := fsum (map (fun p => PrimFloat.mul (fst p) (snd p)) (zip a b)) in
  let norm_a := float_pow_half (fsum (map (fun x => PrimFloat.mul x x) a)) in
  let norm_b := float_pow_half (fsum (map (fun y => PrimFloat.mul y y) b)) in
  if negb (is_zero norm_a) && negb (is_zero norm_b) then
    let d := PrimFloat.mul norm_a norm_b in
    if is_zero d then Raise ZeroDivisionError else Ok (PrimFloat.div dot d)
  else Ok 0%float.

(** ** [list.sort(key=.., reverse=True)]

    Python's sort is stable and [reverse=True] keeps that stability: the
    result is in descending key order and elements with equal keys keep
    their original order.  It compares keys with [<] only.

    - [a < b] raises [TypeError] unless both are numbers or both are
      strings ([None], a [Vector], a number against a string do not
      compare).  A list of at most one element is sorted without any
      comparison; in a longer list every element is compared at least once
      and no sort can order numbers and strings without comparing one with
      the other: the sort raises exactly when the keys are not all numbers
      or all strings, whatever the order of the comparisons.
    - On keys that [<] orders totally (no NaN) the result is unique; it is
      computed here by insertion from the right.  With a NaN among the keys
      the result is some rearrangement of the list, the platform's. *)
Definition value_lt (a b : value) : outcome bool :=
  match a, b with
  | VNum x, VNum y => Ok (PrimFloat.ltb x y)
  | VStr s, VStr t => Ok (String.ltb s t)
  | _, _ => Raise TypeError
  end.

Section Sort.
Context {A : Type}.

(** The element [x], which stood before all of [l], goes behind the
    elements of larger key. *)
Fixpoint insert_by (x : value * A) (l : list (value * A))
  : outcome (list (value * A)) :=
  match l with
  | [] => Ok [x]
  | y :: l' =>
      smaller ← value_lt (fst x) (fst y);
      if (smaller : bool) then l'' ← insert_by x l'; Ok (y :: l'')
      else Ok (x :: y :: l')
  end.

Fixpoint sort_decorated (l : list (value * A)) : outcome (list (value * A)) :=
  match l with
  | [] => Ok []
  | x :: l' => sorted ← sort_decorated l'; insert_by x sorted
  end.

(** The same sort on keys that are numbers. *)
Context (key : A -> float).

Fixpoint insert_desc (x : A) (l : list A) : list A :=
  match l with
  | [] => [x]
  | y :: l' =>
      if PrimFloat.ltb (key x) (key y) then y :: insert_desc x l'
      else x :: y :: l'
  end.

Definition sort_desc (l : list A) : list A := fold_right insert_desc [] l.
End Sort.

Definition is_nan_key (k : value) : bool :=
  match k with
  | VNum x => PrimFloat.is_nan x
  | _ => false
  end.

(** The rearrangement of [l] that a list of choices stands for: each choice
    takes one of the elements still left (counted modulo their number) as
    the next one; what is left when the choices run out follows in its
    order. *)
Fixpoint rearrange {A} (choices : list nat) (l : list A) : list A :=
  match choices, l with
  | c :: choices', x :: _ =>
      let i := c mod length l in
      nth i l x :: rearrange choices' (delete i l)
  | _, _ => l
  end.

(** [l.sort(key=key, reverse=True)]: the keys are computed first (an
    exception of the key function leaves the sort), then compared. *)
Definition sort_by `{platform} {A} (key : A -> outcome value) (l : list A)
  : outcome (list A) :=
  keys ← mapM key l;
  decorated ← sort_decorated (zip keys l);
  if existsb is_nan_key keys then Ok (rearrange (nan_order keys) l)
  else Ok (map snd decorated).

(** [l[:n]] for an integer [n] of either sign. *)
Definition slice_to {A} (l : list A) (n : Z) : list A :=
  if (0 <=? n)%Z then take (Z.to_nat n) l
  else take (Z.to_nat (Z.of_nat (length l) + n)) l.

(** ** The external collaborators *)

(** A decoded RGB image; the engine never looks inside. *)
Inductive image := RGB (content : string).

(** The embedding provider as the pipeline sees it (the [embedding_model]
    argument): either call may answer [None], a vector, or raise. *)
Record provider := {
  encode_text : value -> string -> outcome (option (list float));
  encode_image : image -> outcome (option (list float));
}.

(** [JinaCLIPEmbedding] over the underlying model [model_text]/[model_image]:
    both methods turn any exception of the model into [None]. *)
Definition JinaCLIPEmbedding
    (model_text : value -> string -> outcome (list float))
    (model_image : image -> outcome (list float)) : provider :=
  {| encode_text text task :=
       catch (embeddings ← model_text text task; Ok (Some embeddings))
             (fun _ => Ok None);
     encode_image img :=
       catch (embeddings ← model_image img; Ok (Some embeddings))
             (fun _ => Ok None) |}.

(** The two Firestore collections.  The product collection is kept in the
    order in which a query returns its documents (document key, fields). *)
Record firestore := {
  products : list (string * dict);
  vectors : gmap string dict;
}.

(** How the services outside the engine behave: which calls raise, what the
    nearest-neighbour index answers, what an image URL yields. *)
Record backend := {
  find_nearest : gmap string dict -> string -> list float -> Z -> outcome (list dict);
  get_raises : string -> option exn;
  query_raises : option exn;
  set_raises : string -> option exn;
  update_raises : string -> option exn;
  fetch_image : value -> outcome image;
}.

Fixpoint lookup_doc (k : string) (coll : list (string * dict)) : option dict :=
  match coll with
  | [] => None
  | (k', d) :: coll' => if String.eqb k k' then Some d else lookup_doc k coll'
  end.

Fixpoint update_doc (k : string) (f : dict -> dict) (coll : list (string * dict))
  : list (string * dict) :=
  match coll with
  | [] => []
  | (k', d) :: coll' =>
      if String.eqb k k' then (k', f d) :: coll' else (k', d) :: update_doc k f coll'
  end.

(** [_auto_id()]: the client draws twenty random characters.  The id is
    taken to be new, one that no document of the collection has (a collision
    has probability of the order of [62 ^ -20]). *)
Definition auto_id (keys : list string) : string := fresh keys.

(** [collection.document(v)] in a collection whose documents are [keys]: a
    string is the id, [None] asks for an automatic id, any other value is
    not a path element.  (Ids are single path elements: an id with a slash
    in it, which the client would read as a longer path, is not modelled.) *)
Definition document (keys : list string) (v : value) : outcome string :=
  match v with
  | VStr s => Ok s
  | VNone => Ok (auto_id keys)
  | _ => Raise TypeError
  end.

Definition product_ids (db : firestore) : list string := map fst (products db).

Definition vector_ids (db : firestore) : list string := elements (dom (vectors db)).

(** [product_collection.document(product_id).get()], then [.exists] and
    [.to_dict()]. *)
Definition product_get (be : backend) (db : firestore) (product_id : value)
  : outcome (option dict) :=
  k ← document (product_ids db) product_id;
  match get_raises be k with
  | Some e => Raise e
  | None => Ok (lookup_doc k (products db))
  end.

(** ** [FirestoreVectorDB.vector_search] *)

(** [list(embedding_vec)] when it is not a list already; [None] when that
    raises.  (A string converts to a list of characters, on which [np.dot]
    raises and the score is [0.0]: the same score as for [None].) *)
Definition as_list (v : value) : option (list float) :=
  match v with
  | VVec l => Some l
  | _ => None
  end.

Definition vector_field_name (query_type : string) : string :=
  if String.eqb query_type "image" then "image_embedding" else "text_embedding".

(** The body of the [for doc in vector_query.stream()] loop. *)
Definition make_hit `{platform} (be : backend) (db : firestore)
    (query_embedding : list float) (field : string) (doc_data : dict) : dict :=
  let embedding_vec := as_list (get doc_data field) in
  let product_id := get doc_data "id" in
  let similarity_score :=
    if nonempty embedding_vec
    then calculate_dot_product_score query_embedding (default [] embedding_vec)
    else 0%float in
  let product_data :=
    if truthy product_id then
      match product_get be db product_id with
      | Ok (Some d) => d
      | Ok None => ∅
      | Raise _ => ∅
      end
    else ∅ in
  product_data ∪
    <["id" := product_id]>
    (<["similarity_score" := VNum similarity_score]>
    (<["text_embedding" := get doc_data "text_embedding"]>
    (<["image_embedding" := get doc_data "image_embedding"]> ∅))).

(** The sort key [x.get("similarity_score", 0)]: whatever the hit holds
    under that name (the catalog's value when the catalog document has such
    a field). *)
Definition sort_key (x : dict) : value := default (VNum 0) (x !! "similarity_score").

Definition vector_search `{platform} (be : backend) (db : firestore)
    (query_embedding : list float) (limit : Z) (query_type : string)
  : outcome (list dict) :=
  catch
    (let field := vector_field_name query_type in
     docs ← find_nearest be (vectors db) field query_embedding limit;
     let results := map (make_hit be db query_embedding field) docs in
     sort_by (fun x => Ok (sort_key x)) results)
    (fun _ => Ok []).

(** ** [MultimodalRAGSystem] *)

(** [sep.join(items)]: every item must be a string. *)
Definition join (sep : string) (items : list value) : outcome string :=
  strs ← mapM (fun item => match item with
                           | VStr s => Ok s
                           | _ => Raise TypeError
                           end) items;
  Ok (String.concat sep strs).

(** The message a search builds when it has found something:
    [[r.get(field, "Unknown") for r in results[:5]]], joined with commas.
    It is built outside any [try]. *)
Definition info_top_results (field : string) (results : list dict) : outcome unit :=
  match results with
  | [] => Ok tt
  | _ :: _ =>
      let names := map (fun r : dict => default (VStr "Unknown") (r !! field))
                       (slice_to results 5) in
      _ ← join ", " names;
      Ok tt
  end.

Definition search_by_text `{platform} (be : backend) (db : firestore) (em : provider)
    (query : string) (limit : Z) : outcome (list dict) :=
  query_embedding ← encode_text em (VStr query) "retrieval.query";
  if negb (nonempty query_embedding) then Ok []
  else
    results ← vector_search be db (default [] query_embedding) limit "text";
    _ ← info_top_results "id" results;
    Ok results.

Definition search_by_image `{platform} (be : backend) (db : firestore) (em : provider)
    (img : image) (limit : Z) (query_type : string) : outcome (list dict) :=
  query_embedding ← encode_image em img;
  if negb (nonempty query_embedding) then Ok []
  else
    results ← vector_search be db (default [] query_embedding) limit query_type;
    _ ← info_top_results "product_name" results;
    Ok results.

(** Keys of the merge dict: strings and numbers are hashable, sequences are
    not; two keys are the same when they are equal ([==]). *)
Definition hashable (v : value) : bool :=
  match v with
  | VVec _ => false
  | _ => true
  end.

Definition key_eqb (a b : value) : bool :=
  match a, b with
  | VStr s, VStr t => String.eqb s t
  | VNum x, VNum y => PrimFloat.eqb x y
  | _, _ => false
  end.

Definition key_in (k : value) (combined_dict : list (value * dict)) : bool :=
  existsb (fun kv => key_eqb k (fst kv)) combined_dict.

(** The merge loop over [text_results + image_results]; [combined_dict] is
    in insertion order. *)
Fixpoint merge_into (combined_dict : list (value * dict)) (docs : list dict)
  : outcome (list (value * dict)) :=
  match docs with
  | [] => Ok combined_dict
  | doc :: rest =>
      let doc_id := get doc "id" in
      if truthy doc_id then
        if hashable doc_id then
          if key_in doc_id combined_dict then merge_into combined_dict rest
          else merge_into (combined_dict ++ [(doc_id, doc)]) rest
        else Raise TypeError
      else merge_into combined_dict rest
  end.

Definition merge_results (text_results image_results : list dict) : outcome (list dict) :=
  combined_dict ← merge_into [] (text_results ++ image_results);
  Ok (map snd combined_dict).

(** [[alpha_img * i + alpha_text * t for i, t in zip(image, text)]] with
    [alpha_img, alpha_text = alpha, 1.0 - alpha]. *)
Definition weighted (alpha : float) (image_emb text_emb : list float) : list float :=
  let alpha_img := alpha in
  let alpha_text := PrimFloat.sub 1 alpha in
  map (fun p => PrimFloat.add (PrimFloat.mul alpha_img (fst p))
                              (PrimFloat.mul alpha_text (snd p)))
      (zip image_emb text_emb).

(** The value stored under ["combined_embedding"].  A truthy value that is
    not a sequence of floats cannot be zipped or multiplied: [TypeError]. *)
Definition combined_embedding (alpha : float) (doc : dict) : outcome value :=
  let text_emb := get_or_empty doc "text_embedding" in
  let image_emb := get_or_empty doc "image_embedding" in
  if truthy text_emb && truthy image_emb then
    match image_emb, text_emb with
    | VVec i, VVec t => Ok (VVec (weighted alpha i t))
    | _, _ => Raise TypeError
    end
  else if truthy text_emb then Ok text_emb
  else if truthy image_emb then Ok image_emb
  else Ok (VVec []).

Definition add_combined (alpha : float) (doc : dict) : outcome dict :=
  c ← combined_embedding alpha doc;
  Ok (<["combined_embedding" := c]> doc).

(** The sort key of the final ranking. *)
Definition fused_score `{platform} (query_combined_embedding : list float) (doc : dict)
  : outcome float :=
  match get_or_empty doc "combined_embedding" with
  | VVec a => cosine_similarity a query_combined_embedding
  | _ => Raise TypeError
  end.

Definition search_multimodal `{platform} (be : backend) (db : firestore)
    (em : provider) (text_query : string) (img : image) (limit : Z) (alpha : float)
  : outcome (list dict) :=
  text_embedding ← encode_text em (VStr text_query) "retrieval.query";
  image_embedding ← encode_image em img;
  if negb (nonempty text_embedding) || negb (nonempty image_embedding) then Ok []
  else
    let text_embedding := default [] text_embedding in
    let image_embedding := default [] image_embedding in
    text_results ← vector_search be db text_embedding limit "text";
    image_results ← vector_search be db image_embedding limit "image";
    combined_results ← merge_results text_results image_results;
    combined_results ← mapM (add_combined alpha) combined_results;
    let query_combined_embedding := weighted alpha image_embedding text_embedding in
    combined_results ← sort_by (fun doc => score ← fused_score query_combined_embedding doc;
                                           Ok (VNum score)) combined_results;
    let top_results := slice_to combined_results limit in
    _ ← info_top_results "product_name" top_results;
    Ok top_results.

(** ** [FirestoreVectorDB.store_products] *)

(** [d[k]]. *)
Definition subscript (d : dict) (k : string) : outcome value :=
  match d !! k with
  | Some v => Ok v
  | None => Raise KeyError
  end.

(** The writes a run performs, in order. *)
Inductive event :=
| EvSet (id : string) (doc : dict)
| EvUpdate (id : string).

Record run := {
  db_of : firestore;
  trace : list event;
  stored_count : nat;
}.

Definition is_pending (d : dict) : bool :=
  match d !! "is_emb" with
  | Some (VStr s) => String.eqb s "R"
  | _ => false
  end.

(** [product_collection.where("is_emb", "==", "R").get()] and [to_dict()]. *)
Definition pending_products (db : firestore) : list dict :=
  map snd (List.filter (fun kd => is_pending (snd kd)) (products db)).

Definition mark_done (d : dict) : dict := <["is_emb" := VStr "D"]> d.

(** [embedding_collection.document(id).set(doc)]. *)
Definition set_document (be : backend) (id : string) (doc : dict) (r : run)
  : run * outcome unit :=
  match set_raises be id with
  | Some e => (r, Raise e)
  | None =>
      ({| db_of := {| products := products (db_of r);
                      vectors := <[id := doc]> (vectors (db_of r)) |};
          trace := trace r ++ [EvSet id doc];
          stored_count := stored_count r |}, Ok tt)
  end.

(** [product_collection.document(id).update({"is_emb": "D"})]; updating a
    document that does not exist raises [NotFound]. *)
Definition update_document (be : backend) (id : string) (r : run)
  : run * outcome unit :=
  match update_raises be id with
  | Some e => (r, Raise e)
  | None =>
      match lookup_doc id (products (db_of r)) with
      | None => (r, Raise NotFound)
      | Some _ =>
          ({| db_of := {| products := update_doc id mark_done (products (db_of r));
                          vectors := vectors (db_of r) |};
              trace := trace r ++ [EvUpdate id];
              stored_count := stored_count r |}, Ok tt)
      end
  end.

Definition incr_stored (r : run) : run :=
  {| db_of := db_of r; trace := trace r; stored_count := S (stored_count r) |}.

(** One iteration of [for i, product in enumerate(products_data)].
    [Ok tt]: go on with the next product ([continue] included);
    [Raise e]: the exception leaves the loop. *)
Definition index_one (be : backend) (em : provider) (product : dict) (r : run)
  : run * outcome unit :=
  let inner_try :=
    name ← subscript product "product_name";
    embedding_text ← encode_text em name "retrieval.query";
    Ok (embedding_text, default (VStr "") (product !! "image_url")) in
  match inner_try with
  | Raise _ =>
      (* except: print(.. product['id'] ..); continue *)
      match subscript product "id" with
      | Ok _ => (r, Ok tt)
      | Raise e => (r, Raise e)
      end
  | Ok (embedding_text, image_url) =>
      match (img ← fetch_image be image_url; encode_image em img) with
      | Raise e => (r, Raise e)
      | Ok embedding_image =>
          if nonempty embedding_text && nonempty embedding_image then
            match subscript product "id" with
            | Raise e => (r, Raise e)
            | Ok id =>
                let embedding_doc_data : dict :=
                  <["id" := id]>
                  (<["text_embedding" := VVec (default [] embedding_text)]>
                  (<["image_embedding" := VVec (default [] embedding_image)]> ∅)) in
                match document (vector_ids (db_of r)) id with
                | Raise e => (r, Raise e)
                | Ok k =>
                    match set_document be k embedding_doc_data r with
                    | (r1, Raise e) => (r1, Raise e)
                    | (r1, Ok _) =>
                        match document (product_ids (db_of r1)) id with
                        | Raise e => (r1, Raise e)
                        | Ok k' =>
                            match update_document be k' r1 with
                            | (r2, Raise e) => (r2, Raise e)
                            | (r2, Ok _) => (incr_stored r2, Ok tt)
                            end
                        end
                    end
                end
            end
          else (r, Ok tt)
      end
  end.

Fixpoint index_loop (be : backend) (em : provider) (products_data : list dict)
    (r : run) : run * outcome unit :=
  match products_data with
  | [] => (r, Ok tt)
  | product :: rest =>
      match index_one be em product r with
      | (r', Ok _) => index_loop be em rest r'
      | (r', Raise e) => (r', Raise e)
      end
  end.

(** [store_products]: [True] when the loop ran to its end, [False] when an
    exception reached the outer handler.  The writes made before the
    exception stay. *)
Definition store_products (be : backend) (em : provider) (db : firestore)
  : run * bool :=
  let start := {| db_of := db; trace := []; stored_count := 0 |} in
  match query_raises be with
  | Some _ => (start, false)
  | None =>
      match index_loop be em (pending_products db) start with
      | (r, Ok _) => (r, true)
      | (r, Raise _) => (r, false)
      end
  end.

(** ** [utils.validate_environment] and [FirestoreVectorDB.initialize_client] *)

(** [os.getenv(var)] in the environment [environ]. *)
Definition getenv (environ : gmap string string) (var : string) : option string :=
  environ !! var.

(** [not x] for the result of [os.getenv]: unset, or set to the empty string. *)
Definition unset (o : option string) : bool :=
  match o with
  | None => true
  | Some s => String.eqb s ""
  end.

(** [os.path.exists(p)]; it raises [TypeError] on [None]. *)
Definition os_path_exists (file_exists : string -> bool) (p : option string)
  : outcome bool :=
  match p with
  | Some s => Ok (file_exists s)
  | None => Raise TypeError
  end.

Definition required_vars : list string :=
  ["GOOGLE_APPLICATION_CREDENTIALS"; "GOOGLE_CLOUD_PROJECT"].

(** The list [missing_vars] that [validate_environment] collects. *)
Definition missing_vars (environ : gmap string string) : list string :=
  List.filter (fun var => unset (getenv environ var)) required_vars.

Definition validate_environment (environ : gmap string string)
    (file_exists : string -> bool) : outcome bool :=
  match missing_vars environ with
  | _ :: _ => Ok false
  | [] =>
      let creds_path := getenv environ "GOOGLE_APPLICATION_CREDENTIALS" in
      found ← os_path_exists file_exists creds_path;
      if negb found then Ok false else Ok true
  end.

(** A Firestore client, and the part of Google Cloud the constructor and the
    connection test talk to. *)
Inductive client := Client (project : string).

Record gcloud := {
  client_raises : string -> option exn;
  list_collections : client -> outcome nat;
}.

(** [test_connection]: the handler reports the exception and raises it again. *)
Definition test_connection (g : gcloud) (c : client) : outcome unit :=
  catch (collections ← list_collections g c; Ok tt) (fun e => Raise e).

(** [initialize_client]: the client, and the environment as the function
    leaves it. *)
Definition initialize_client (environ : gmap string string)
    (file_exists : string -> bool) (g : gcloud)
  : outcome (client * gmap string string) :=
  catch
    (let project_id := getenv environ "GOOGLE_CLOUD_PROJECT" in
     let creds_path := getenv environ "GOOGLE_APPLICATION_CREDENTIALS" in
     if unset project_id then Raise ValueError
     else
       invalid ← (if unset creds_path then Ok true
                  else found ← os_path_exists file_exists creds_path; Ok (negb found));
       if (invalid : bool) then Raise ValueError
       else
         let environ' :=
           <["GOOGLE_APPLICATION_CREDENTIALS" := default "" creds_path]> environ in
         let project := default "" project_id in
         match client_raises g project with
         | Some e => Raise e
         | None =>
             _ ← test_connection g (Client project);
             Ok (Client project, environ')
         end)
    (fun e => Raise e).

(** ** [MultimodalRAGSystem.load_products_from_file] and [index_products] *)

(** What [json.load] can return. *)
#[local] Unset Elimination Schemes.
Inductive json :=
| JNull
| JBool (b : bool)
| JNum (x : float)
| JStr (s : string)
| JArr (items : list json)
| JObj (fields : list (string * json)).
#[local] Set Elimination Schemes.

Definition json_truthy (v : json) : bool :=
  match v with
  | JNull => false
  | JBool b => b
  | JNum x => negb (PrimFloat.eqb x 0)
  | JStr s => negb (String.eqb s "")
  | JArr items => negb (Nat.eqb (length items) 0)
  | JObj fields => negb (Nat.eqb (length fields) 0)
  end.

(** [len(v)]: numbers, booleans and [None] have no length. *)
Definition json_len (v : json) : outcome nat :=
  match v with
  | JStr s => Ok (String.length s)
  | JArr items => Ok (length items)
  | JObj fields => Ok (length fields)
  | _ => Raise TypeError
  end.

(** [load_products_from_file]: [read_json path] is [open] followed by
    [json.load].  The attribute [products_data] is assigned before the
    message that takes its length is built.  Result: the attribute after the
    call, and the value returned. *)
Definition load_products_from_file (read_json : string -> outcome json)
    (file_path : string) (products_data : json) : json * bool :=
  match read_json file_path with
  | Raise _ => (products_data, false)
  | Ok loaded =>
      match json_len loaded with
      | Ok _ => (loaded, true)
      | Raise _ => (loaded, false)
      end
  end.

(** The attribute [products_data] of a new [MultimodalRAGSystem]. *)
Definition no_products : json := JArr [].

Definition index_products (be : backend) (em : provider) (db : firestore)
    (products_data : json) : run * bool :=
  if negb (json_truthy products_data)
  then ({| db_of := db; trace := []; stored_count := 0 |}, false)
  else store_products be em db.

(** ** [server.py]: the search endpoints *)
Module Server.

(** [safe_remove_embedding]: [item.pop("embedding", None)] on every item. *)
Definition safe_remove_embedding (results : list dict) : list dict :=
  map (fun item : dict => delete "embedding" item) results.

(** What a handler answers: the dict it returns, or the [HTTPException] it
    raises.  (The response model that FastAPI applies afterwards is not part
    of the handlers.) *)
Inductive response :=
| Results (results : list dict)
| HTTPException (status_code : Z) (cause : exn).

Definition respond (m : outcome (list dict)) : response :=
  match m with
  | Ok results => Results (safe_remove_embedding results)
  | Raise e => HTTPException 500 e
  end.

(** [POST /search/text]. *)
Definition search_products `{platform} (be : backend) (db : firestore) (em : provider)
    (query : string) (top_k : Z) : response :=
  respond (search_by_text be db em query top_k).

(** [POST /search/image]; [read_imagefile] is the decoding of the upload. *)
Definition search_by_image `{platform} (be : backend) (db : firestore) (em : provider)
    (read_imagefile : outcome image) (top_k : Z) : response :=
  respond (img ← read_imagefile; search_by_image be db em img top_k "image").

(** [POST /search/multimodal]. *)
Definition search_multimodal `{platform} (be : backend) (db : firestore)
    (em : provider) (query : string) (read_imagefile : outcome image) (alpha : float)
    (top_k : Z) : response :=
  respond (img ← read_imagefile; search_multimodal be db em query img top_k alpha).

End Server.

(** * The vocabulary of the statements

    Definitions that the facts below are stated with: none of them is part
    of the program. *)

(** The rank of a binary64 number in the lexicographic order on integer
    triples (sign class, exponent, mantissa); both zeros have the same rank. *)
Definition rank (f : spec_float) : Z * Z * Z :=
  match f with
  | S754_nan => (0, 0, 0)
  | S754_zero _ => (0, 0, 0)
  | S754_infinity true => (-2, 0, 0)
  | S754_infinity false => (2, 0, 0)
  | S754_finite true m e => (-1, - e, Z.neg m)
  | S754_finite false m e => (1, e, Z.pos m)
  end%Z.

Definition lex (a b : Z * Z * Z) : comparison :=
  match (a.1.1 ?= b.1.1)%Z with
  | Eq => match (a.1.2 ?= b.1.2)%Z with
          | Eq => (a.2 ?= b.2)%Z
          | c => c
          end
  | c => c
  end.

Definition lex_lt (a b : Z * Z * Z) : Prop :=
  (a.1.1 < b.1.1 \/ (a.1.1 = b.1.1 /\
    (a.1.2 < b.1.2 \/ (a.1.2 = b.1.2 /\ a.2 < b.2))))%Z.

Definition not_nan (x : float) : Prop := PrimFloat.is_nan x = false.

(** [b] may follow [a] in a list in descending order of [key]. *)
Definition desc {A} (key : A -> float) (a b : A) : Prop :=
  PrimFloat.leb (key b) (key a) = true.

(** The key of an element on which the key function does not raise. *)
Definition total {A} (key : A -> outcome float) (x : A) : float :=
  match key x with
  | Ok k => k
  | Raise _ => 0%float
  end.

(** The score [vector_search] computes for a candidate document. *)
Definition stored_score `{platform} (query_embedding : list float) (field : string)
    (doc_data : dict) : float :=
  let embedding_vec := as_list (get doc_data field) in
  if nonempty embedding_vec
  then calculate_dot_product_score query_embedding (default [] embedding_vec)
  else 0%float.

(** The score a hit is ranked by, when it is a number. *)
Definition hit_score (hit : dict) : float :=
  match sort_key hit with
  | VNum score => score
  | _ => 0%float
  end.

(** The fields of the catalog document that [vector_search] joins to a
    candidate ([product_data]): none when the candidate has no id, when the
    lookup raises or when there is no such document. *)
Definition catalog_fields (be : backend) (db : firestore) (doc_data : dict) : dict :=
  let product_id := get doc_data "id" in
  if truthy product_id then
    match product_get be db product_id with
    | Ok (Some d) => d
    | Ok None => ∅
    | Raise _ => ∅
    end
  else ∅.

(** No catalog document carries a field named [similarity_score] (which
    [**product_data] would write over the computed score). *)
Definition no_score_field (db : firestore) : Prop :=
  forall k d, lookup_doc k (products db) = Some d -> d !! "similarity_score" = None.

(** The dimension of the deployed model's vectors.  The interface displays
    it; no code of the engine compares a length with it. *)
Definition D : nat := 1024.

(** What one iteration decides before it writes anything: skip the product,
    leave the loop with an exception, write [doc] under the key [k], or,
    for a product whose id is [None], write [doc] under an automatic id. *)
Inductive verdict :=
| Skip
| Fail (e : exn)
| Write (k : string) (doc : dict)
| Stray (doc : dict).

Definition embedding_document (id : value) (t i : list float) : dict :=
  <["id" := id]>
  (<["text_embedding" := VVec t]>
  (<["image_embedding" := VVec i]> ∅)).

Definition verdict_of (be : backend) (em : provider) (product : dict) : verdict :=
  match (name ← subscript product "product_name";
         embedding_text ← encode_text em name "retrieval.query";
         Ok (embedding_text, default (VStr "") (product !! "image_url"))) with
  | Raise _ =>
      match subscript product "id" with
      | Ok _ => Skip
      | Raise e => Fail e
      end
  | Ok (embedding_text, image_url) =>
      match (img ← fetch_image be image_url; encode_image em img) with
      | Raise e => Fail e
      | Ok embedding_image =>
          if nonempty embedding_text && nonempty embedding_image then
            match subscript product "id" with
            | Raise e => Fail e
            | Ok (VStr k) =>
                Write k (embedding_document (VStr k) (default [] embedding_text)
                                                     (default [] embedding_image))
            | Ok VNone =>
                Stray (embedding_document VNone (default [] embedding_text)
                                                (default [] embedding_image))
            | Ok _ => Fail TypeError
            end
          else Skip
      end
  end.

(** The write, then the flip, then the count. *)
Definition commit (be : backend) (k : string) (doc : dict) (r : run)
  : run * outcome unit :=
  match set_document be k doc r with
  | (r1, Raise e) => (r1, Raise e)
  | (r1, Ok _) =>
      match update_document be k r1 with
      | (r2, Raise e) => (r2, Raise e)
      | (r2, Ok _) => (incr_stored r2, Ok tt)
      end
  end.

(** The same for a product without id: the document goes under one
    automatic id, the flip is asked of another. *)
Definition commit_stray (be : backend) (doc : dict) (r : run) : run * outcome unit :=
  match set_document be (auto_id (vector_ids (db_of r))) doc r with
  | (r1, Raise e) => (r1, Raise e)
  | (r1, Ok _) =>
      match update_document be (auto_id (product_ids (db_of r1))) r1 with
      | (r2, Raise e) => (r2, Raise e)
      | (r2, Ok _) => (incr_stored r2, Ok tt)
      end
  end.

(** The effect of a write on the store. *)
Definition apply_event (db : firestore) (ev : event) : firestore :=
  match ev with
  | EvSet id doc => {| products := products db; vectors := <[id := doc]> (vectors db) |}
  | EvUpdate id => {| products := update_doc id mark_done (products db);
                      vectors := vectors db |}
  end.

Definition replay (evs : list event) (db : firestore) : firestore :=
  fold_left apply_event evs db.

(** The document a [Write] verdict carries: the product's id and two
    non-empty vectors. *)
Definition is_embedding_document (k : string) (doc : dict) : Prop :=
  exists t i, t <> [] /\ i <> [] /\ doc = embedding_document (VStr k) t i.

(** A trace made of completed writes only: each one a [set] of the
    embedding document followed at once by the [update] of the same id. *)
Inductive pairs : list event -> Prop :=
| pairs_nil : pairs []
| pairs_cons k doc t :
    is_embedding_document k doc -> pairs t ->
    pairs (EvSet k doc :: EvUpdate k :: t).

(** The catalog as Firestore keeps it: one document per key, filed under
    its own product id. *)
Definition well_keyed (coll : list (string * dict)) : Prop :=
  Forall (fun kd => snd kd !! "id" = Some (VStr (fst kd))) coll.

Definition pending_of (coll : list (string * dict)) : list dict :=
  map snd (List.filter (fun kd => is_pending (snd kd)) coll).

(** A run that finds [ps] pending in a store whose vectors are [vs] changes
    nothing: it stores no product and flips none. *)
Definition quiescent (be : backend) (em : provider) (ps : list dict)
    (vs : gmap string dict) : Prop :=
  forall r, vectors (db_of r) = vs ->
    exists r' o,
      index_loop be em ps r = (r', o) /\
      db_of r' = db_of r /\ stored_count r' = stored_count r /\
      (forall k, In (EvUpdate k) (trace r') -> In (EvUpdate k) (trace r)).

Definition is_done (k : string) (coll : list (string * dict)) : Prop :=
  exists d, lookup_doc k coll = Some d /\ d !! "is_emb" = Some (VStr "D").

(** The hit carries the product id [s]. *)
Definition has_id (s : string) (d : dict) : bool := key_eqb (VStr s) (get d "id").

Definition at_most_one {A} (o : option A) : list A :=
  match o with
  | Some x => [x]
  | None => []
  end.

(** The keys of the merge dict are the ids of its entries. *)
Definition keyed_by_id (combined_dict : list (value * dict)) : Prop :=
  Forall (fun kv => fst kv = get (snd kv) "id") combined_dict.

(** The key function of the final sort. *)
Definition fused_key `{platform} (query_combined_embedding : list float) (doc : dict)
  : outcome value :=
  score ← fused_score query_combined_embedding doc; Ok (VNum score).

(** The steps of a multimodal search that has both query embeddings. *)
Inductive fusion_steps `{platform} (be : backend) (db : firestore) (limit : Z)
    (alpha : float) (te ie : list float) (hits : list dict) : Prop :=
| fusion_run (text_results image_results merged candidates ranked : list dict) :
    vector_search be db te limit "text" = Ok text_results ->
    vector_search be db ie limit "image" = Ok image_results ->
    merge_results text_results image_results = Ok merged ->
    mapM (add_combined alpha) merged = Ok candidates ->
    sort_by (fused_key (weighted alpha ie te)) candidates = Ok ranked ->
    hits = slice_to ranked limit ->
    fusion_steps be db limit alpha te ie hits.

(** A vector of zeros (of either sign). *)
Definition all_zero (a : list float) : Prop :=
  Forall (fun x => x = 0%float \/ x = PrimFloat.neg_zero) a.

(** The cosine score of a candidate, [0.0] where the key function raises. *)
Definition cosine_score `{platform} (alpha : float) (te ie : list float)
    (candidate : dict) : float :=
  total (fused_score (weighted alpha ie te)) candidate.

(** The store answers no nearest-neighbour query. *)
Definition store_unreachable (be : backend) (db : firestore) : Prop :=
  forall field qe limit, exists e, find_nearest be (vectors db) field qe limit = Raise e.

(** The number of flips in a trace. *)
Definition flips (t : list event) : nat :=
  length (List.filter (fun ev => match ev with EvUpdate _ => true | EvSet _ _ => false end) t).

(** Every write of a document in the trace is the write of an embedding
    document under its own id. *)
Definition sets_embedding_documents (t : list event) : Prop :=
  Forall (fun ev => match ev with
                    | EvSet k doc => is_embedding_document k doc
                    | EvUpdate _ => True
                    end) t.

(** A catalog document after a run: itself, or itself marked Done. *)
Definition same_or_done (before after : string * dict) : Prop :=
  fst after = fst before /\
  (snd after = snd before \/ snd after = mark_done (snd before)).

(** What a run that reaches its end makes of a catalog document: a pending
    product with both embeddings is marked Done, any other document is left
    as it is. *)
Definition settle (be : backend) (em : provider) (kd : string * dict) : string * dict :=
  if is_pending (snd kd) then
    match verdict_of be em (snd kd) with
    | Write _ _ => (fst kd, mark_done (snd kd))
    | _ => kd
    end
  else kd.

(** What such a run adds to the vector collection for a catalog document. *)
Definition file_embedding (be : backend) (em : provider) (vs : gmap string dict)
    (kd : string * dict) : gmap string dict :=
  if is_pending (snd kd) then
    match verdict_of be em (snd kd) with
    | Write k doc => <[k := doc]> vs
    | _ => vs
    end
  else vs.

(** The catalog document is one the run stores. *)
Definition stores (be : backend) (em : provider) (kd : string * dict) : bool :=
  is_pending (snd kd) &&
  match verdict_of be em (snd kd) with
  | Write _ _ => true
  | _ => false
  end.

(** The hit of a candidate before the catalog fields are joined: its id,
    its score and its two stored vectors. *)
Definition bare_hit `{platform} (query_embedding : list float) (field : string)
    (doc_data : dict) : dict :=
  <["id" := get doc_data "id"]>
  (<["similarity_score" := VNum (stored_score query_embedding field doc_data)]>
  (<["text_embedding" := get doc_data "text_embedding"]>
  (<["image_embedding" := get doc_data "image_embedding"]> ∅))).

(** The fused score of a hit: the combined embedding is added, then scored. *)
Definition fused_score_of_hit `{platform} (alpha : float) (query_combined : list float)
    (hit : dict) : outcome float :=
  candidate ← add_combined alpha hit; fused_score query_combined candidate.

(** No catalog document carries a field named [embedding]. *)
Definition no_embedding_field (db : firestore) : Prop :=
  forall k d, lookup_doc k (products db) = Some d -> d !! "embedding" = None.

(** The state in which a run starts: nothing written, nothing counted. *)
Definition untouched (db : firestore) : run :=
  {| db_of := db; trace := []; stored_count := 0 |}.

(** The scores of the two candidates differ (and neither is NaN). *)
Definition scores_differ `{platform} (q : list float) (field : string)
    (d1 d2 : dict) : Prop :=
  PrimFloat.ltb (stored_score q field d1) (stored_score q field d2) = true \/
  PrimFloat.ltb (stored_score q field d2) (stored_score q field d1) = true.

(** The keys of [a] and [b] are strictly ordered, one way or the other. *)
Definition differ {A} (key : A -> float) (a b : A) : Prop :=
  PrimFloat.ltb (key a) (key b) = true \/ PrimFloat.ltb (key b) (key a) = true.

(** [b] must follow [a] in a list in strictly descending order of [key]. *)
Definition strictly_desc {A} (key : A -> float) (a b : A) : Prop :=
  PrimFloat.ltb (key b) (key a) = true.

(** The document written for a product whose id is [None]. *)
Definition is_stray_document (doc : dict) : Prop :=
  exists t i, t <> [] /\ i <> [] /\ doc = embedding_document VNone t i.

(** The catalog document was Pending before and is not any more. *)
Definition flipped (before after : string * dict) : bool :=
  is_pending (snd before) && negb (is_pending (snd after)).

(** The number of catalog documents that a run has taken from Pending to
    Done. *)
Definition flipped_documents (before after : list (string * dict)) : nat :=
  length (List.filter (fun ba => flipped (fst ba) (snd ba)) (zip before after)).

Definition is_str (v : value) : bool :=
  match v with
  | VStr _ => true
  | _ => false
  end.

(** What the message of a search shows for a result. *)
Definition shown (field : string) (r : dict) : value :=
  default (VStr "Unknown") (r !! field).

(** The message over the first five results can be built. *)
Definition printable (field : string) (results : list dict) : bool :=
  forallb (fun r => is_str (shown field r)) (slice_to results 5).

(** The sign of a binary64 number is not negative (or the number is NaN). *)
Definition not_negative (f : spec_float) : Prop :=
  match f with
  | S754_zero _ | S754_nan => True
  | S754_infinity s | S754_finite s _ _ => s = false
  end.

(** * Fixtures: small stores, catalogs and models to run the model on *)

Module Fixtures.

(** A platform on which [pow(x, 0.5)] is the correctly rounded square
    root, the dot product is summed from the left and the sort leaves a
    list with a NaN key as it is. *)
Definition exact : platform :=
  {| pow_half := PrimFloat.sqrt; blas_sum := fsum; nan_order _ := [] |}.

Definition embedding_doc (id : string) (text_emb image_emb : value) : dict :=
  {[ "id" := VStr id; "text_embedding" := text_emb; "image_embedding" := image_emb ]}.

(** A store in which no call fails and the index answers [candidates]. *)
Definition answering (candidates : list dict) : backend :=
  {| find_nearest _ _ _ _ := Ok candidates;
     get_raises _ := None;
     query_raises := None;
     set_raises _ := None;
     update_raises _ := None;
     fetch_image _ := Ok (RGB "") |}.

Definition empty_db : firestore := {| products := []; vectors := ∅ |}.

End Fixtures.

Module Catalog.

Definition product_doc (id name url : string) : dict :=
  {[ "id" := VStr id; "product_name" := VStr name;
     "image_url" := VStr url; "is_emb" := VStr "R" ]}.

Definition p1 : dict := product_doc "p1" "noodles" "http://down/p1.png".
Definition p2 : dict := product_doc "p2" "ramen" "http://shop/p2.png".

Definition two_pending : firestore :=
  {| products := [("p1", p1); ("p2", p2)]; vectors := ∅ |}.

(** A network on which one URL cannot be fetched. *)
Definition unreachable (url : string) : backend :=
  {| find_nearest _ _ _ _ := Ok [];
     get_raises _ := None;
     query_raises := None;
     set_raises _ := None;
     update_raises _ := None;
     fetch_image v :=
       match v with
       | VStr u => if String.eqb u url then Raise NetworkError else Ok (RGB u)
       | _ => Raise NetworkError
       end |}.

(** A model that embeds every text and every image. *)
Definition model : provider :=
  JinaCLIPEmbedding (fun _ _ => Ok [1; 0]%float) (fun _ => Ok [0; 1]%float).

End Catalog.

Module Shop.

(** Two indexed products: [A] has long vectors, [B] has unit vectors along
    the query. *)
Definition A : dict :=
  Fixtures.embedding_doc "A" (VVec [3; 4]%float) (VVec [3; 4]%float).
Definition B : dict :=
  Fixtures.embedding_doc "B" (VVec [1; 0]%float) (VVec [1; 0]%float).

(** A model that embeds every query, text or image, as [[1, 0]]. *)
Definition model : provider :=
  JinaCLIPEmbedding (fun _ _ => Ok [1; 0]%float) (fun _ => Ok [1; 0]%float).

(** A model that cannot be reached. *)
Definition model_down : provider :=
  JinaCLIPEmbedding (fun _ _ => Raise ProviderError) (fun _ => Raise ProviderError).

Definition store : backend := Fixtures.answering [A; B].

(** A store that cannot be reached. *)
Definition store_down : backend :=
  {| find_nearest _ _ _ _ := Raise StoreError;
     get_raises _ := Some StoreError;
     query_raises := Some StoreError;
     set_raises _ := Some StoreError;
     update_raises _ := Some StoreError;
     fetch_image _ := Ok (RGB "") |}.

Definition ids (r : outcome (list dict)) : outcome (list value) :=
  hits ← r; Ok (map (fun h => get h "id") hits).

End Shop.

(** * Facts about the model *)

(** ** The order of binary64 numbers

    [<] and [<=] on floats that are not NaN form a total preorder.  Proved
    from the specification of the primitive comparison, by ranking every
    number in a lexicographic order on integer triples. *)

Lemma lex_Lt a b : lex a b = Lt <-> lex_lt a b.
Proof.
  unfold lex, lex_lt.
  destruct (Z.compare_spec a.1.1 b.1.1), (Z.compare_spec a.1.2 b.1.2),
    (Z.compare_spec a.2 b.2); split; intros; try discriminate; try lia; auto.
Qed.

Lemma lex_Gt a b : lex a b = Gt <-> lex_lt b a.
Proof.
  unfold lex, lex_lt.
  destruct (Z.compare_spec a.1.1 b.1.1), (Z.compare_spec a.1.2 b.1.2),
    (Z.compare_spec a.2 b.2); split; intros; try discriminate; try lia; auto.
Qed.

Lemma lex_Eq a b : lex a b = Eq <-> a = b.
Proof.
  unfold lex. destruct a as [[a1 a2] a3], b as [[b1 b2] b3]; simpl.
  destruct (Z.compare_spec a1 b1), (Z.compare_spec a2 b2),
    (Z.compare_spec a3 b3); split; intros; try discriminate; subst; auto;
    match goal with H : (_, _, _) = (_, _, _) |- _ => inversion H; lia end.
Qed.

Lemma SFcompare_rank f g :
  f <> S754_nan -> g <> S754_nan ->
  SFcompare f g = Some (lex (rank f) (rank g)).
Proof.
  intros Hf Hg. destruct f as [[]|[]| |[] mf ef], g as [[]|[]| |[] mg eg];
    try congruence; try reflexivity; unfold lex; simpl;
    rewrite ?Z.compare_opp, ?Pos.compare_cont_spec; simpl;
    try rewrite (Z.compare_antisym ef eg);
    destruct (ef ?= eg)%Z; simpl; auto;
    destruct (mf ?= mg)%positive; auto.
Qed.

Lemma not_nan_spec x : not_nan x <-> Prim2SF x <> S754_nan.
Proof.
  unfold not_nan, PrimFloat.is_nan. rewrite FloatAxioms.eqb_spec. unfold SFeqb.
  split.
  - intros H E. rewrite E in H. discriminate.
  - intros H. rewrite SFcompare_rank by assumption.
    replace (lex _ _) with Eq; [reflexivity|].
    symmetry. now apply lex_Eq.
Qed.

Lemma compare_nan_l f g : SFcompare f g <> None -> f <> S754_nan.
Proof. intros H E. subst. now destruct g. Qed.

Lemma compare_nan_r f g : SFcompare f g <> None -> g <> S754_nan.
Proof. intros H E. subst. now destruct f as [| | |[] ? ?]. Qed.

(** [x < y] as an order on ranks. *)
Lemma ltb_rank x y :
  PrimFloat.ltb x y = true <->
  not_nan x /\ not_nan y /\ lex_lt (rank (Prim2SF x)) (rank (Prim2SF y)).
Proof.
  rewrite FloatAxioms.ltb_spec, !not_nan_spec. unfold SFltb. split.
  - intros H.
    assert (Hc : SFcompare (Prim2SF x) (Prim2SF y) <> None)
      by (destruct (SFcompare _ _); congruence).
    pose proof (compare_nan_l _ _ Hc) as Hx.
    pose proof (compare_nan_r _ _ Hc) as Hy.
    rewrite SFcompare_rank in H by assumption.
    repeat split; auto. apply lex_Lt.
    destruct (lex _ _); congruence.
  - intros (Hx & Hy & Hl). rewrite SFcompare_rank by assumption.
    apply lex_Lt in Hl. now rewrite Hl.
Qed.

Lemma leb_rank x y :
  PrimFloat.leb x y = true <->
  not_nan x /\ not_nan y /\ ~ lex_lt (rank (Prim2SF y)) (rank (Prim2SF x)).
Proof.
  rewrite FloatAxioms.leb_spec, !not_nan_spec. unfold SFleb. split.
  - intros H.
    assert (Hc : SFcompare (Prim2SF x) (Prim2SF y) <> None)
      by (destruct (SFcompare _ _); congruence).
    pose proof (compare_nan_l _ _ Hc) as Hx.
    pose proof (compare_nan_r _ _ Hc) as Hy.
    rewrite SFcompare_rank in H by assumption.
    repeat split; auto. rewrite <- lex_Gt.
    destruct (lex _ _); congruence.
  - intros (Hx & Hy & Hl). rewrite SFcompare_rank by assumption.
    rewrite <- lex_Gt in Hl. destruct (lex _ _); congruence.
Qed.

Lemma eqb_rank x y :
  PrimFloat.eqb x y = true <->
  not_nan x /\ not_nan y /\ rank (Prim2SF x) = rank (Prim2SF y).
Proof.
  rewrite FloatAxioms.eqb_spec, !not_nan_spec. unfold SFeqb. split.
  - intros H.
    assert (Hc : SFcompare (Prim2SF x) (Prim2SF y) <> None)
      by (destruct (SFcompare _ _); congruence).
    pose proof (compare_nan_l _ _ Hc) as Hx.
    pose proof (compare_nan_r _ _ Hc) as Hy.
    rewrite SFcompare_rank in H by assumption.
    repeat split; auto. apply lex_Eq.
    destruct (lex _ _); congruence.
  - intros (Hx & Hy & Hl). rewrite SFcompare_rank by assumption.
    apply lex_Eq in Hl. now rewrite Hl.
Qed.

Lemma float_ltb_asym x y : PrimFloat.ltb x y = true -> PrimFloat.ltb y x = false.
Proof.
  intros H. apply ltb_rank in H as (_ & _ & H).
  apply not_true_is_false. intros H'. apply ltb_rank in H' as (_ & _ & H').
  unfold lex_lt in *. lia.
Qed.

Lemma float_not_ltb_leb x y :
  not_nan x -> not_nan y -> PrimFloat.ltb x y = false -> PrimFloat.leb y x = true.
Proof.
  intros Hx Hy H. apply leb_rank. repeat split; auto.
  intros Hl. rewrite (proj2 (ltb_rank x y)) in H; [discriminate | auto].
Qed.

Lemma float_ltb_leb x y : PrimFloat.ltb x y = true -> PrimFloat.leb x y = true.
Proof.
  intros H. apply ltb_rank in H as (Hx & Hy & H). apply leb_rank.
  repeat split; auto. unfold lex_lt in *. lia.
Qed.

Lemma float_leb_not_ltb x y : PrimFloat.leb x y = true -> PrimFloat.ltb y x = false.
Proof.
  intros H. apply leb_rank in H as (Hx & Hy & H).
  apply not_true_is_false. intros H'. apply ltb_rank in H' as (_ & _ & H').
  auto.
Qed.

Lemma float_leb_trans x y z :
  PrimFloat.leb x y = true -> PrimFloat.leb y z = true -> PrimFloat.leb x z = true.
Proof.
  intros H1 H2. apply leb_rank in H1 as (Hx & Hy & H1).
  apply leb_rank in H2 as (_ & Hz & H2). apply leb_rank.
  repeat split; auto. unfold lex_lt in *. lia.
Qed.

(** Two keys equal to a third are not ordered by [<]. *)
Lemma float_eqb_not_ltb x y c :
  PrimFloat.eqb x c = true -> PrimFloat.eqb y c = true -> PrimFloat.ltb x y = false.
Proof.
  intros H1 H2. apply eqb_rank in H1 as (_ & _ & H1).
  apply eqb_rank in H2 as (_ & _ & H2).
  apply not_true_is_false. intros H'. apply ltb_rank in H' as (_ & _ & H').
  rewrite H1, H2 in H'. unfold lex_lt in H'. lia.
Qed.

(** ** The descending stable sort *)
Section SortFacts.
Context {A : Type} (key : A -> float).

Lemma insert_desc_perm x l : Permutation (insert_desc key x l) (x :: l).
Proof.
  induction l as [|y l IH]; simpl; [reflexivity|].
  destruct (PrimFloat.ltb (key x) (key y)); [|reflexivity].
  rewrite IH. apply perm_swap.
Qed.

Lemma sort_desc_perm l : Permutation (sort_desc key l) l.
Proof.
  induction l as [|x l IH]; simpl; [reflexivity|].
  rewrite insert_desc_perm. now constructor.
Qed.

Lemma insert_desc_sorted x l :
  not_nan (key x) ->
  Forall (fun y => not_nan (key y)) l ->
  StronglySorted (desc key) l -> StronglySorted (desc key) (insert_desc key x l).
Proof.
  intros Hx Hl Hs. induction Hs as [|y l Hs IH Hy]; simpl.
  - repeat constructor.
  - inversion Hl as [|? ? Hny Hnl]; subst.
    destruct (PrimFloat.ltb (key x) (key y)) eqn:E.
    + constructor; [auto|].
      rewrite insert_desc_perm. constructor; [|assumption].
      now apply float_ltb_leb.
    + assert (Hyx : desc key x y) by now apply float_not_ltb_leb.
      constructor; [now constructor|].
      constructor; [assumption|].
      eapply Forall_impl; [exact Hy|]. intros z Hz.
      unfold desc in *. eapply float_leb_trans; eassumption.
Qed.

Lemma sort_desc_sorted l :
  Forall (fun y => not_nan (key y)) l ->
  StronglySorted (desc key) (sort_desc key l).
Proof.
  induction l as [|x l IH]; simpl; intros H.
  - constructor.
  - inversion H; subst. apply insert_desc_sorted; auto.
    now rewrite sort_desc_perm.
Qed.

(** Stability: a family of elements that the key does not order keeps its
    original order. *)
Lemma insert_desc_stable (P : A -> bool) x l :
  (forall a b, P a = true -> P b = true -> PrimFloat.ltb (key a) (key b) = false) ->
  List.filter P (insert_desc key x l) = List.filter P (x :: l).
Proof.
  intros HP. induction l as [|y l IH]; [reflexivity|].
  cbn [insert_desc]. destruct (PrimFloat.ltb (key x) (key y)) eqn:E; [|reflexivity].
  cbn [List.filter] in *. rewrite IH.
  destruct (P x) eqn:Px, (P y) eqn:Py; try reflexivity.
  rewrite (HP x y Px Py) in E. discriminate.
Qed.

Lemma sort_desc_stable (P : A -> bool) l :
  (forall a b, P a = true -> P b = true -> PrimFloat.ltb (key a) (key b) = false) ->
  List.filter P (sort_desc key l) = List.filter P l.
Proof.
  intros HP. induction l as [|x l IH]; [reflexivity|].
  cbn [sort_desc fold_right]. rewrite insert_desc_stable by assumption.
  cbn [List.filter]. fold (sort_desc key l). now rewrite IH.
Qed.

(** Hits that compare equal to the same score keep their order. *)
Lemma sort_desc_ties c l :
  List.filter (fun x => PrimFloat.eqb (key x) c) (sort_desc key l) =
  List.filter (fun x => PrimFloat.eqb (key x) c) l.
Proof.
  apply sort_desc_stable. intros a b Ha Hb.
  eapply float_eqb_not_ltb; eassumption.
Qed.

(** In a sorted list a strictly larger key comes first. *)
Lemma sorted_before l1 a l2 b l3 :
  StronglySorted (desc key) (l1 ++ a :: l2 ++ b :: l3) ->
  PrimFloat.ltb (key a) (key b) = false.
Proof.
  induction l1 as [|x l1 IH]; simpl; intros H;
    inversion H as [|? ? Hs Hall]; subst; [|auto].
  apply Forall_app in Hall as [_ Hall]. inversion Hall; subst.
  now apply float_leb_not_ltb.
Qed.
End SortFacts.

Lemma Ok_returned {A} (m : outcome (list A)) : is_ok m = true -> m = Ok (returned m).
Proof. destruct m; [reflexivity|discriminate]. Qed.

Lemma hd_In {A} (d : A) l : length l <> 0 -> In (hd d l) l.
Proof. destruct l; cbn; [congruence|auto]. Qed.

Lemma mapM_Ok {A B} (f : A -> outcome B) l r :
  mapM f l = Ok r -> Forall2 (fun x y => f x = Ok y) l r.
Proof.
  revert r. induction l as [|x l IH]; simpl; intros r H.
  - inversion H. constructor.
  - destruct (f x) eqn:E; [|discriminate]. simpl in H.
    destruct (mapM f l) eqn:E'; [|discriminate]. simpl in H.
    inversion H; subst. constructor; auto.
Qed.

Lemma mapM_total {A B} (f : A -> outcome B) (g : A -> B) l :
  Forall (fun x => f x = Ok (g x)) l -> mapM f l = Ok (map g l).
Proof.
  induction 1 as [|x l Hx _ IH]; simpl; [reflexivity|].
  now rewrite Hx, IH.
Qed.

Lemma zip_map_snd {A B} (keys : list A) (l : list B) :
  length keys = length l -> map snd (zip keys l) = l.
Proof.
  revert l. induction keys as [|k keys IH]; intros [|x l]; cbn; try discriminate.
  - reflexivity.
  - intros [= H]. now rewrite IH.
Qed.

(** ** The sort with comparisons that may raise *)

(** Whenever it returns, it returns the elements it was given. *)
Lemma insert_by_perm {A} (x : value * A) l :
  forall r, insert_by x l = Ok r -> Permutation r (x :: l).
Proof.
  induction l as [|y l IH]; cbn; intros r.
  - intros [= <-]. reflexivity.
  - destruct (value_lt (fst x) (fst y)) as [[]|]; cbn; try discriminate.
    + destruct (insert_by x l) as [l''|]; cbn; [|discriminate].
      intros [= <-]. rewrite (IH _ eq_refl). apply perm_swap.
    + intros [= <-]. reflexivity.
Qed.

Lemma sort_decorated_perm {A} (l : list (value * A)) :
  forall r, sort_decorated l = Ok r -> Permutation r l.
Proof.
  induction l as [|x l IH]; cbn; intros r.
  - intros [= <-]. reflexivity.
  - destruct (sort_decorated l) as [sorted|]; cbn; [|discriminate].
    intros H. apply insert_by_perm in H. rewrite H.
    constructor. now apply IH.
Qed.

Lemma rearrange_perm {A} choices :
  forall l : list A, Permutation (rearrange choices l) l.
Proof.
  induction choices as [|c choices IH]; intros [|x l]; cbn [rearrange];
    try reflexivity.
  set (i := c mod length (x :: l)).
  assert (Hi : i < length (x :: l)) by (apply Nat.mod_upper_bound; discriminate).
  destruct (lookup_lt_is_Some_2 (x :: l) i Hi) as [y Hy].
  rewrite IH, (nth_lookup_Some _ _ _ _ Hy).
  symmetry. now apply delete_Permutation.
Qed.

Lemma sort_by_perm `{platform} {A} (key : A -> outcome value) l r :
  sort_by key l = Ok r -> Permutation r l.
Proof.
  unfold sort_by. destruct (mapM key l) as [keys|] eqn:Ek; cbn; [|discriminate].
  destruct (sort_decorated (zip keys l)) as [d|] eqn:Ed; cbn; [|discriminate].
  destruct (existsb is_nan_key keys); intros [= <-]; [apply rearrange_perm|].
  apply sort_decorated_perm in Ed.
  rewrite Ed, zip_map_snd; [reflexivity|].
  apply mapM_Ok in Ek. symmetry. eapply Forall2_length. exact Ek.
Qed.

(** On keys that are numbers no comparison raises; without NaN the result
    is the descending stable sort. *)
Lemma insert_by_numbers {A} (f : A -> float) x l :
  insert_by (VNum (f x), x) (map (fun y => (VNum (f y), y)) l)
  = Ok (map (fun y => (VNum (f y), y)) (insert_desc f x l)).
Proof.
  induction l as [|y l IH]; cbn; [reflexivity|].
  destruct (PrimFloat.ltb (f x) (f y)); cbn; [|reflexivity].
  rewrite IH. reflexivity.
Qed.

Lemma sort_decorated_numbers {A} (f : A -> float) l :
  sort_decorated (map (fun y => (VNum (f y), y)) l)
  = Ok (map (fun y => (VNum (f y), y)) (sort_desc f l)).
Proof.
  induction l as [|x l IH]; cbn; [reflexivity|].
  rewrite IH. cbn. apply insert_by_numbers.
Qed.

Lemma zip_decorate {A B} (g : A -> B) l : zip (map g l) l = map (fun y => (g y, y)) l.
Proof. induction l as [|x l IH]; cbn; congruence. Qed.

Lemma no_nan_key {A} (f : A -> float) l :
  Forall (fun x => not_nan (f x)) l ->
  existsb is_nan_key (map (fun x => VNum (f x)) l) = false.
Proof.
  induction 1 as [|x l Hx _ IH]; cbn; [reflexivity|].
  unfold not_nan in Hx. now rewrite Hx.
Qed.

Lemma sort_by_numbers `{platform} {A} (key : A -> outcome value) (f : A -> float) l :
  Forall (fun x => key x = Ok (VNum (f x))) l ->
  exists r,
    sort_by key l = Ok r /\ Permutation r l /\
    (Forall (fun x => not_nan (f x)) l -> r = sort_desc f l).
Proof.
  intros Hk. unfold sort_by.
  rewrite (mapM_total key (fun x => VNum (f x)) l Hk). cbn.
  rewrite zip_decorate, sort_decorated_numbers. cbn.
  rewrite map_map. cbn. rewrite map_id.
  destruct (existsb is_nan_key _) eqn:En.
  - eexists. split; [reflexivity|]. split; [apply rearrange_perm|].
    intros Hnan. rewrite no_nan_key in En by assumption. discriminate.
  - eexists. split; [reflexivity|]. split; [apply sort_desc_perm|]. reflexivity.
Qed.

(** A key function that returns a number or raises. *)
Lemma sort_by_Ok `{platform} {A} (key : A -> outcome float) l r :
  sort_by (fun x => k ← key x; Ok (VNum k)) l = Ok r ->
  Forall (fun x => key x = Ok (total key x)) l /\
  Permutation r l /\
  (Forall (fun x => not_nan (total key x)) l -> r = sort_desc (total key) l).
Proof.
  intros Hs.
  assert (Hall : Forall (fun x => key x = Ok (total key x)) l).
  { unfold sort_by in Hs.
    destruct (mapM _ l) as [keys|] eqn:E; [|discriminate].
    apply mapM_Ok in E. clear Hs.
    induction E as [|x k l keys Hk _ IH]; constructor; auto.
    unfold total. destruct (key x); [reflexivity|discriminate]. }
  split; [assumption|].
  destruct (sort_by_numbers (fun x => k ← key x; Ok (VNum k)) (total key) l)
    as (r' & Hr' & Hperm & Hsorted).
  { eapply Forall_impl; [exact Hall|]. cbn. intros x ->. reflexivity. }
  assert (r' = r) as -> by congruence. auto.
Qed.

(** ** Scores of the single-modality search *)

Lemma catalog_fields_lookup be db doc_data f v :
  catalog_fields be db doc_data !! f = Some v ->
  exists k d, lookup_doc k (products db) = Some d /\ d !! f = Some v.
Proof.
  unfold catalog_fields. destruct (truthy _); [|now rewrite lookup_empty].
  unfold product_get. destruct (document _ _) as [k|]; cbn; [|now rewrite lookup_empty].
  destruct (get_raises be k); [now rewrite lookup_empty|].
  destruct (lookup_doc k (products db)) eqn:E; [|now rewrite lookup_empty].
  eauto.
Qed.

Lemma make_hit_join `{platform} be db q field doc_data :
  make_hit be db q field doc_data
  = catalog_fields be db doc_data ∪ bare_hit q field doc_data.
Proof. reflexivity. Qed.

Lemma make_hit_field `{platform} be db q field doc_data f :
  make_hit be db q field doc_data !! f
  = match catalog_fields be db doc_data !! f with
    | Some v => Some v
    | None => bare_hit q field doc_data !! f
    end.
Proof.
  rewrite make_hit_join, lookup_union.
  destruct (catalog_fields be db doc_data !! f);
    match goal with |- context [?m !! f] => destruct (m !! f) end; reflexivity.
Qed.

Lemma bare_hit_similarity_score `{platform} q field doc_data :
  bare_hit q field doc_data !! "similarity_score"
  = Some (VNum (stored_score q field doc_data)).
Proof.
  unfold bare_hit. rewrite lookup_insert_ne by discriminate.
  now rewrite lookup_insert_eq.
Qed.

Lemma no_score_field_catalog be db doc_data :
  no_score_field db -> catalog_fields be db doc_data !! "similarity_score" = None.
Proof.
  intros Hdb. destruct (catalog_fields be db doc_data !! "similarity_score") eqn:E;
    [|reflexivity].
  apply catalog_fields_lookup in E as (k & d & Hl & Hd).
  rewrite (Hdb _ _ Hl) in Hd. discriminate.
Qed.

Lemma make_hit_similarity_score `{platform} be db q field doc_data :
  no_score_field db ->
  make_hit be db q field doc_data !! "similarity_score"
  = Some (VNum (stored_score q field doc_data)).
Proof.
  intros Hdb. rewrite make_hit_field, no_score_field_catalog by assumption.
  apply bare_hit_similarity_score.
Qed.

Lemma make_hit_sort_key `{platform} be db q field doc_data :
  no_score_field db ->
  sort_key (make_hit be db q field doc_data) = VNum (stored_score q field doc_data).
Proof.
  intros Hdb. unfold sort_key. now rewrite make_hit_similarity_score.
Qed.

Lemma make_hit_score `{platform} be db q field doc_data :
  no_score_field db ->
  hit_score (make_hit be db q field doc_data) = stored_score q field doc_data.
Proof.
  intros Hdb. unfold hit_score. now rewrite make_hit_sort_key.
Qed.

Lemma vector_search_never_raises `{platform} be db q limit qt :
  exists hits, vector_search be db q limit qt = Ok hits.
Proof.
  unfold vector_search. destruct (_ ≫= _); simpl; eauto.
Qed.

(** When no catalog field replaces a score the sort compares numbers: the
    search returns its candidates, in the descending stable order of their
    scores when none is NaN. *)
Lemma vector_search_hits `{platform} be db q limit qt docs :
  find_nearest be (vectors db) (vector_field_name qt) q limit = Ok docs ->
  no_score_field db ->
  let candidates := map (make_hit be db q (vector_field_name qt)) docs in
  exists hits,
    vector_search be db q limit qt = Ok hits /\ Permutation hits candidates /\
    (Forall (fun h => not_nan (hit_score h)) candidates ->
     hits = sort_desc hit_score candidates).
Proof.
  intros Hn Hdb candidates. unfold vector_search. rewrite Hn. cbn.
  fold candidates.
  destruct (sort_by_numbers (fun x => Ok (sort_key x)) hit_score candidates)
    as (hits & -> & Hperm & Hsorted).
  { apply List.Forall_forall. intros h Hh. apply in_map_iff in Hh as (d & <- & _).
    rewrite make_hit_sort_key, make_hit_score by assumption. reflexivity. }
  exists hits. auto.
Qed.

Lemma vector_search_sorted_hits `{platform} be db q limit qt docs :
  find_nearest be (vectors db) (vector_field_name qt) q limit = Ok docs ->
  no_score_field db ->
  Forall (fun d => not_nan (stored_score q (vector_field_name qt) d)) docs ->
  vector_search be db q limit qt
  = Ok (sort_desc hit_score (map (make_hit be db q (vector_field_name qt)) docs)).
Proof.
  intros Hn Hdb Hnan.
  destruct (vector_search_hits be db q limit qt docs Hn Hdb) as (hits & -> & _ & Hs).
  rewrite Hs; [reflexivity|].
  apply List.Forall_forall. intros h Hh. apply in_map_iff in Hh as (d & <- & Hd).
  rewrite make_hit_score by assumption.
  rewrite List.Forall_forall in Hnan. now apply Hnan.
Qed.

Lemma empty_db_no_score_field : no_score_field Fixtures.empty_db.
Proof. intros k d H. discriminate. Qed.

Example search_text_spec_example :
  let _ : platform := Fixtures.exact in
  let A := Fixtures.embedding_doc "A" (VVec [1; 0]%float) VNone in
  let B := Fixtures.embedding_doc "B" (VVec [0; 1]%float) VNone in
  map (fun h => (get h "id", get h "similarity_score"))
      (match vector_search (Fixtures.answering [B; A]) Fixtures.empty_db
               [1; 0]%float 30 "text" with Ok r => r | Raise _ => [] end)
  = [(VStr "A", VNum 1); (VStr "B", VNum 0)].
Proof. vm_compute. reflexivity. Qed.

Lemma stored_score_aligned `{platform} q field d v :
  as_list (get d field) = Some v -> v <> [] -> length v = length q ->
  stored_score q field d = np_dot q v.
Proof.
  intros Hv Hne Hlen. unfold stored_score, calculate_dot_product_score.
  rewrite Hv. destruct v; [congruence|]. simpl nonempty. cbv iota.
  simpl default. rewrite Hlen, Nat.eqb_refl. reflexivity.
Qed.

Lemma stored_score_malformed `{platform} q field d :
  nonempty (as_list (get d field)) = false \/
  length (default [] (as_list (get d field))) <> length q ->
  stored_score q field d = 0%float.
Proof.
  unfold stored_score, calculate_dot_product_score.
  intros [Hm|Hm]; [now rewrite Hm|].
  destruct (nonempty _); [|reflexivity].
  apply Nat.eqb_neq in Hm. rewrite Nat.eqb_sym in Hm. now rewrite Hm.
Qed.

Lemma weighted_length alpha image_emb text_emb :
  length (weighted alpha image_emb text_emb)
  = Nat.min (length image_emb) (length text_emb).
Proof.
  unfold weighted. rewrite length_map.
  revert text_emb. induction image_emb as [|i l IH]; intros [|t l']; simpl; auto.
Qed.

(** C4, as the code has it: when no catalog document overrides the field and
    no score is NaN, the hits are the candidates of the store, each with the
    dot product recomputed from its stored vector ([0.0] when that vector is
    missing, empty or of another length), in descending order of that score,
    hits of equal score in the order of the store.  A hit of score zero comes
    after every hit of positive score (and before those of negative score). *)
Theorem vector_search_ranking `{platform} be db q limit qt docs :
  find_nearest be (vectors db) (vector_field_name qt) q limit = Ok docs ->
  no_score_field db ->
  Forall (fun d => not_nan (stored_score q (vector_field_name qt) d)) docs ->
  let field := vector_field_name qt in
  let candidates := map (make_hit be db q field) docs in
  exists hits,
    vector_search be db q limit qt = Ok hits /\
    Permutation hits candidates /\
    (forall d, get (make_hit be db q field d) "similarity_score"
               = VNum (stored_score q field d)) /\
    (forall d v, as_list (get d field) = Some v -> v <> [] ->
                 length v = length q -> stored_score q field d = np_dot q v) /\
    (forall d, nonempty (as_list (get d field)) = false \/
               length (default [] (as_list (get d field))) <> length q ->
               stored_score q field d = 0%float) /\
    StronglySorted (desc hit_score) hits /\
    (forall c, List.filter (fun h => PrimFloat.eqb (hit_score h) c) hits
             = List.filter (fun h => PrimFloat.eqb (hit_score h) c) candidates) /\
    (forall l1 a l2 b l3, hits = (l1 ++ a :: l2 ++ b :: l3)%list ->
       hit_score a = 0%float -> PrimFloat.ltb 0 (hit_score b) = false).
Proof.
  intros Hn Hdb Hnan field candidates.
  assert (Hsorted : StronglySorted (desc hit_score) (sort_desc hit_score candidates)).
  { apply sort_desc_sorted. subst candidates. apply List.Forall_forall.
    intros h Hh. apply in_map_iff in Hh as (d & <- & Hd).
    rewrite make_hit_score by assumption.
    rewrite List.Forall_forall in Hnan. now apply Hnan. }
  exists (sort_desc hit_score candidates). repeat split.
  - now apply vector_search_sorted_hits.
  - apply sort_desc_perm.
  - intros d. unfold get. now rewrite make_hit_similarity_score.
  - apply stored_score_aligned.
  - apply stored_score_malformed.
  - exact Hsorted.
  - intros c. apply sort_desc_ties.
  - intros l1 a l2 b l3 E Ha. rewrite E in Hsorted.
    apply sorted_before in Hsorted. now rewrite Ha in Hsorted.
Qed.

Lemma vector_search_ranking_witness :
  let _ : platform := Fixtures.exact in
  let A := Fixtures.embedding_doc "A" (VVec [1; 0]%float) VNone in
  let B := Fixtures.embedding_doc "B" (VVec [0; 1]%float) VNone in
  no_score_field Fixtures.empty_db /\
  exists hits,
    vector_search (Fixtures.answering [B; A]) Fixtures.empty_db [1; 0]%float 30 "text"
    = Ok hits /\
    StronglySorted (desc hit_score) hits.
Proof.
  intros py A B. split; [exact empty_db_no_score_field|].
  destruct (vector_search_ranking (Fixtures.answering [B; A]) Fixtures.empty_db
              [1; 0]%float 30 "text" [B; A] eq_refl
              empty_db_no_score_field) as (hits & H & _ & _ & _ & _ & Hs & _).
  - repeat constructor.
  - exists hits. split; assumption.
Defined.

(** C4 fails as stated: against the query [[1, 0]] the store returns [A]
    with the stored vector [[-1, 0]] (dot product [-1.0]), [B] with no stored
    vector and [C] with a stored vector of another length (both scored
    [0.0]).  [B] and [C] are ranked first, not at the bottom. *)
Lemma missing_embedding_not_at_bottom :
  let _ : platform := Fixtures.exact in
  let A := Fixtures.embedding_doc "A" (VVec [-1; 0]%float) VNone in
  let B : dict := {[ "id" := VStr "B" ]} in
  let C := Fixtures.embedding_doc "C" (VVec [1]%float) VNone in
  let answer := vector_search (Fixtures.answering [A; B; C]) Fixtures.empty_db
                              [1; 0]%float 30 "text" in
  is_ok answer = true /\
  map (fun hit => (get hit "id", get hit "text_embedding", get hit "similarity_score"))
      (returned answer)
  = [(VStr "B", VNone, VNum 0);
     (VStr "C", VVec [1]%float, VNum 0);
     (VStr "A", VVec [-1; 0]%float, VNum (-1))].
Proof. split; vm_compute; reflexivity. Qed.

(** ** The indexing loop *)

Lemma index_one_verdict be em product r :
  index_one be em product r =
  match verdict_of be em product with
  | Skip => (r, Ok tt)
  | Fail e => (r, Raise e)
  | Write k doc => commit be k doc r
  | Stray doc => commit_stray be doc r
  end.
Proof.
  unfold index_one, verdict_of, commit, commit_stray, embedding_document.
  destruct (_ ≫= _) as [[embedding_text image_url]|].
  - destruct (_ ≫= _) as [embedding_image|]; [|reflexivity].
    destruct (nonempty embedding_text && nonempty embedding_image); [|reflexivity].
    destruct (subscript product "id") as [[|k|x|v]|]; reflexivity.
  - destruct (subscript product "id"); reflexivity.
Qed.

(** The three ways [commit] can end. *)
Lemma commit_cases be k doc r r' o :
  commit be k doc r = (r', o) ->
  (r' = r /\ exists e, o = Raise e) \/
  (exists e, o = Raise e /\ trace r' = (trace r ++ [EvSet k doc])%list /\
             db_of r' = apply_event (db_of r) (EvSet k doc) /\
             stored_count r' = stored_count r /\
             (update_raises be k = Some e \/
              lookup_doc k (products (db_of r)) = None)) \/
  (o = Ok tt /\ trace r' = (trace r ++ [EvSet k doc; EvUpdate k])%list /\
   db_of r' = apply_event (apply_event (db_of r) (EvSet k doc)) (EvUpdate k) /\
   stored_count r' = S (stored_count r) /\
   is_Some (lookup_doc k (products (db_of r)))).
Proof.
  unfold commit, set_document, update_document.
  destruct (set_raises be k) as [e|].
  { intros [= <- <-]. left. eauto. }
  cbn [db_of trace stored_count products vectors].
  destruct (update_raises be k) as [e|].
  { intros [= <- <-]. right. left. exists e. cbn. repeat split; auto. }
  destruct (lookup_doc k (products (db_of r))) eqn:El.
  - intros [= <- <-]. right. right. cbn. rewrite <- app_assoc. cbn.
    repeat split; eauto.
  - intros [= <- <-]. right. left. exists NotFound. cbn. repeat split; auto.
Qed.

(** An automatic id names no document of the collection. *)
Lemma auto_id_new_product coll : lookup_doc (auto_id (map fst coll)) coll = None.
Proof.
  assert (Hfresh : forall k, ~ In k (map fst coll) -> lookup_doc k coll = None).
  { intros k. induction coll as [|[k' d] coll IH]; cbn; [reflexivity|].
    intros Hk. destruct (String.eqb_spec k k') as [->|_]; [tauto|].
    apply IH. tauto. }
  apply Hfresh. intros Hin. apply list_elem_of_In in Hin.
  exact (infinite_is_fresh _ Hin).
Qed.

Lemma auto_id_new_vector db : vectors db !! auto_id (vector_ids db) = None.
Proof.
  apply not_elem_of_dom. unfold vector_ids, auto_id. intros Hin.
  apply elem_of_elements in Hin. exact (infinite_is_fresh _ Hin).
Qed.

(** The two ways [commit_stray] can end: it always raises, before the write
    or after it; the flip is never made. *)
Lemma commit_stray_cases be doc r r' o :
  commit_stray be doc r = (r', o) ->
  exists e, o = Raise e /\
    (r' = r \/
     exists k, vectors (db_of r) !! k = None /\
       trace r' = (trace r ++ [EvSet k doc])%list /\
       db_of r' = apply_event (db_of r) (EvSet k doc) /\
       stored_count r' = stored_count r).
Proof.
  unfold commit_stray, set_document, update_document.
  destruct (set_raises be _) as [e|].
  { intros [= <- <-]. eauto. }
  cbn [db_of trace stored_count products vectors].
  assert (Hnew := auto_id_new_vector (db_of r)).
  destruct (update_raises be _) as [e|].
  { intros [= <- <-]. exists e. split; [reflexivity|]. right.
    eexists. split; [exact Hnew|]. cbn. auto. }
  unfold product_ids. cbn [products]. rewrite auto_id_new_product.
  intros [= <- <-]. exists NotFound. split; [reflexivity|]. right.
  eexists. split; [exact Hnew|]. cbn. auto.
Qed.

Lemma verdict_Write be em product k doc :
  verdict_of be em product = Write k doc ->
  is_embedding_document k doc /\ product !! "id" = Some (VStr k).
Proof.
  unfold verdict_of.
  destruct (_ ≫= _) as [[embedding_text image_url]|];
    [|destruct (subscript product "id"); discriminate].
  destruct (_ ≫= _) as [embedding_image|]; [|discriminate].
  destruct (nonempty embedding_text && nonempty embedding_image) eqn:Ene;
    [|discriminate].
  unfold subscript. destruct (product !! "id") as [id|]; [|discriminate].
  destruct id; try discriminate. cbn. intros [= <- <-].
  apply andb_prop in Ene as [Ht Hi].
  destruct embedding_text as [[|]|], embedding_image as [[|]|]; try discriminate.
  split; [|reflexivity]. eexists _, _. repeat split; discriminate.
Qed.

Lemma verdict_Stray be em product doc :
  verdict_of be em product = Stray doc ->
  is_stray_document doc /\ product !! "id" = Some VNone.
Proof.
  unfold verdict_of.
  destruct (_ ≫= _) as [[embedding_text image_url]|];
    [|destruct (subscript product "id"); discriminate].
  destruct (_ ≫= _) as [embedding_image|]; [|discriminate].
  destruct (nonempty embedding_text && nonempty embedding_image) eqn:Ene;
    [|discriminate].
  unfold subscript. destruct (product !! "id") as [id|]; [|discriminate].
  destruct id; try discriminate. cbn. intros [= <-].
  apply andb_prop in Ene as [Ht Hi].
  destruct embedding_text as [[|]|], embedding_image as [[|]|]; try discriminate.
  split; [|reflexivity]. eexists _, _. repeat split; discriminate.
Qed.

Lemma pairs_app t1 t2 : pairs t1 -> pairs t2 -> pairs (t1 ++ t2).
Proof.
  intros H1 H2. induction H1; simpl; [assumption|constructor; assumption].
Qed.

(** In a trace of completed writes (with, at most, one more [set] at its
    end) an [update] always comes right after the [set] of the same id. *)
Lemma pairs_update_after_set t tail :
  pairs t ->
  tail = [] \/ (exists k doc, tail = [EvSet k doc]) ->
  forall pre post k, (t ++ tail)%list = (pre ++ EvUpdate k :: post)%list ->
  exists pre' doc, pre = (pre' ++ [EvSet k doc])%list /\ is_embedding_document k doc.
Proof.
  intros Hp Htail. induction Hp as [|k0 doc0 t Hdoc Hp IH]; intros pre post k E.
  - simpl in E. destruct Htail as [->|(k1 & doc1 & ->)].
    + destruct pre; discriminate.
    + destruct pre as [|a [|b pre]]; discriminate.
  - destruct pre as [|a [|b pre]]; simpl in E.
    + discriminate.
    + inversion E; subst. exists [], doc0. auto.
    + inversion E as [[Ea Eb E']]. destruct (IH _ _ _ E') as (pre' & doc & -> & Hd).
      exists (EvSet k0 doc0 :: EvUpdate k0 :: pre'), doc. auto.
Qed.

Lemma replay_app t1 t2 db : replay (t1 ++ t2) db = replay t2 (replay t1 db).
Proof. apply fold_left_app. Qed.

(** The loop keeps the trace in that shape, and the store is the starting
    store with the trace applied. *)
Lemma index_loop_trace be em db0 products_data :
  forall r r' o,
    index_loop be em products_data r = (r', o) ->
    pairs (trace r) -> db_of r = replay (trace r) db0 ->
    (exists t tail, trace r' = (t ++ tail)%list /\ pairs t /\
       (tail = [] \/ exists k doc, tail = [EvSet k doc])) /\
    db_of r' = replay (trace r') db0.
Proof.
  induction products_data as [|product rest IH]; intros r r' o; simpl.
  - intros [= <- <-] Hp Hdb. split; [|assumption].
    exists (trace r), []. rewrite app_nil_r. auto.
  - rewrite index_one_verdict.
    destruct (verdict_of be em product) as [|e|k doc|doc] eqn:Ev.
    + apply IH.
    + intros [= <- <-] Hp Hdb. split; [|assumption].
      exists (trace r), []. rewrite app_nil_r. auto.
    + apply verdict_Write in Ev as [Hdoc _].
      destruct (commit be k doc r) as [r1 o1] eqn:Ec.
      apply commit_cases in Ec as [[-> [e ->]]|[(e & -> & Ht & Hd & _)|(-> & Ht & Hd & _)]].
      * intros [= <- <-] Hp Hdb. split; [|assumption].
        exists (trace r), []. rewrite app_nil_r. auto.
      * intros [= <- <-] Hp Hdb. split.
        -- exists (trace r), [EvSet k doc]. eauto 6.
        -- rewrite Hd, Ht, replay_app, <- Hdb. reflexivity.
      * intros Hl Hp Hdb. eapply IH; [exact Hl| |].
        -- rewrite Ht. apply pairs_app; [assumption|].
           repeat constructor. assumption.
        -- rewrite Hd, Ht, replay_app, <- Hdb. reflexivity.
    + destruct (commit_stray be doc r) as [r1 o1] eqn:Ec.
      apply commit_stray_cases in Ec as (e & -> & [->|(k & _ & Ht & Hd & _)]).
      * intros [= <- <-] Hp Hdb. split; [|assumption].
        exists (trace r), []. rewrite app_nil_r. auto.
      * intros [= <- <-] Hp Hdb. split.
        -- exists (trace r), [EvSet k doc]. eauto 6.
        -- rewrite Hd, Ht, replay_app, <- Hdb. reflexivity.
Qed.

(** C2: in every run a product is flipped to Done only right after the
    write of its embedding document (id, text vector, image vector, both
    non-empty) has succeeded; the store changes by these writes only; and a
    product for which either embedding is empty is skipped with no write
    and no flip. *)
Theorem done_only_after_write be em db :
  let r := fst (store_products be em db) in
  (forall pre post k,
     trace r = (pre ++ EvUpdate k :: post)%list ->
     exists pre' doc,
       pre = (pre' ++ [EvSet k doc])%list /\ is_embedding_document k doc) /\
  db_of r = replay (trace r) db /\
  (forall product name t img i r0,
     product !! "product_name" = Some name ->
     encode_text em name "retrieval.query" = Ok t ->
     fetch_image be (default (VStr "") (product !! "image_url")) = Ok img ->
     encode_image em img = Ok i ->
     nonempty t = false \/ nonempty i = false ->
     index_one be em product r0 = (r0, Ok tt)).
Proof.
  cbv zeta. split; [|split].
  - unfold store_products. destruct (query_raises be).
    { intros pre post k E. destruct pre; discriminate. }
    destruct (index_loop _ _ _ _) as [r o] eqn:El.
    apply (index_loop_trace be em db) in El as [(t & tail & Et & Hp & Htail) _];
      [|constructor|reflexivity].
    assert (Hr : trace (fst (match o with Ok _ => (r, true) | Raise _ => (r, false) end))
                 = (t ++ tail)%list) by (destruct o; exact Et).
    intros pre post k E. rewrite Hr in E.
    eapply pairs_update_after_set; eassumption.
  - unfold store_products. destruct (query_raises be); [reflexivity|].
    destruct (index_loop _ _ _ _) as [r o] eqn:El.
    apply (index_loop_trace be em db) in El as [_ Hdb];
      [|constructor|reflexivity].
    destruct o; exact Hdb.
  - intros product name t img i r0 Hname Ht Himg Hi Hempty.
    unfold index_one, subscript. rewrite Hname. cbn. rewrite Ht. cbn.
    rewrite Himg. cbn. rewrite Hi.
    destruct Hempty as [-> | ->]; [reflexivity|].
    now rewrite andb_false_r.
Qed.

(** ** A failure inside one iteration *)

(** An exception in the guarded part of the iteration (the name lookup and
    the text embedding) skips the product and the loop goes on. *)
Lemma text_failure_skips be em product r e id :
  (name ← subscript product "product_name";
   encode_text em name "retrieval.query") = Raise e ->
  product !! "id" = Some id ->
  index_one be em product r = (r, Ok tt).
Proof.
  intros Hraise Hid. unfold index_one, subscript in *. rewrite Hid.
  destruct (product !! "product_name") as [name|]; cbn in *; [|reflexivity].
  destruct (encode_text em name "retrieval.query"); [discriminate|reflexivity].
Qed.

(** An exception of the image fetch is not guarded: it leaves the loop. *)
Lemma image_failure_leaves_loop be em product rest r name t e :
  product !! "product_name" = Some name ->
  encode_text em name "retrieval.query" = Ok t ->
  fetch_image be (default (VStr "") (product !! "image_url")) = Raise e ->
  index_loop be em (product :: rest) r = (r, Raise e).
Proof.
  intros Hname Ht Himg. cbn [index_loop]. unfold index_one, subscript.
  rewrite Hname. cbn. rewrite Ht. cbn. rewrite Himg. reflexivity.
Qed.

(** C1 at a failing input: two pending products, the image of the first
    cannot be fetched.  The run ends at once with [False]: nothing is
    written, and the second product, whose image can be fetched and which a
    run without the first one stores, is left Pending. *)
Theorem image_fetch_failure_aborts_batch :
  store_products (Catalog.unreachable "http://down/p1.png") Catalog.model
                 Catalog.two_pending
  = ({| db_of := Catalog.two_pending; trace := []; stored_count := 0 |}, false) /\
  (let alone := {| products := [("p2", Catalog.p2)]; vectors := ∅ |} in
   let r := fst (store_products (Catalog.unreachable "http://down/p1.png")
                                Catalog.model alone) in
   stored_count r = 1 /\ pending_products (db_of r) = []).
Proof. split; [|split]; vm_compute; reflexivity. Qed.

(** The guarded failure next to it: when the first product has no name the
    run goes on, stores the second product and ends with [True]. *)
Example text_failure_continues :
  let nameless : dict := {[ "id" := VStr "p1"; "is_emb" := VStr "R" ]} in
  let db := {| products := [("p1", nameless); ("p2", Catalog.p2)]; vectors := ∅ |} in
  let res := store_products (Catalog.unreachable "http://down/p1.png")
                            Catalog.model db in
  snd res = true /\ stored_count (fst res) = 1 /\
  pending_products (db_of (fst res)) = [nameless].
Proof. repeat split; vm_compute; reflexivity. Qed.

(** ** Running the pipeline twice *)

Lemma pending_of_app c1 c2 : pending_of (c1 ++ c2) = (pending_of c1 ++ pending_of c2)%list.
Proof. unfold pending_of. now rewrite List.filter_app, map_app. Qed.

Lemma lookup_doc_skip k c1 c2 :
  ~ In k (map fst c1) -> lookup_doc k (c1 ++ c2) = lookup_doc k c2.
Proof.
  induction c1 as [|[k' d] c1 IH]; simpl; intros H; [reflexivity|].
  destruct (String.eqb_spec k k') as [->|_]; [tauto|]. apply IH. tauto.
Qed.

Lemma update_doc_skip k f c1 c2 :
  ~ In k (map fst c1) -> update_doc k f (c1 ++ c2) = (c1 ++ update_doc k f c2)%list.
Proof.
  induction c1 as [|[k' d] c1 IH]; simpl; intros H; [reflexivity|].
  destruct (String.eqb_spec k k') as [->|_]; [tauto|]. rewrite IH; tauto.
Qed.

Lemma lookup_update_doc k k' f coll :
  lookup_doc k' (update_doc k f coll)
  = if String.eqb k' k then f <$> lookup_doc k coll else lookup_doc k' coll.
Proof.
  induction coll as [|[k0 d] coll IH]; simpl.
  - now destruct (String.eqb k' k).
  - destruct (String.eqb_spec k k0) as [->|Hk]; simpl.
    + destruct (String.eqb_spec k' k0) as [->|Hk']; reflexivity.
    + rewrite IH. destruct (String.eqb_spec k' k0) as [->|Hk'].
      * destruct (String.eqb_spec k0 k); [congruence|reflexivity].
      * reflexivity.
Qed.

Lemma mark_done_not_pending d : is_pending (mark_done d) = false.
Proof. unfold is_pending, mark_done. now rewrite lookup_insert_eq. Qed.

Lemma quiescent_nil be em vs : quiescent be em [] vs.
Proof. intros r _. exists r, (Ok tt). auto. Qed.

Lemma quiescent_skip be em p ps vs :
  verdict_of be em p = Skip -> quiescent be em ps vs -> quiescent be em (p :: ps) vs.
Proof.
  intros Hv Hq r Hr. cbn [index_loop]. rewrite index_one_verdict, Hv.
  now apply Hq.
Qed.

Lemma quiescent_fail be em p ps vs e :
  verdict_of be em p = Fail e -> quiescent be em (p :: ps) vs.
Proof.
  intros Hv r Hr. cbn [index_loop]. rewrite index_one_verdict, Hv.
  exists r, (Raise e). auto.
Qed.

Lemma quiescent_set_fails be em p ps vs k doc e :
  verdict_of be em p = Write k doc -> set_raises be k = Some e ->
  quiescent be em (p :: ps) vs.
Proof.
  intros Hv Hs r Hr. cbn [index_loop]. rewrite index_one_verdict, Hv.
  unfold commit, set_document. rewrite Hs. exists r, (Raise e). auto.
Qed.

Lemma quiescent_update_fails be em p ps vs k doc e :
  verdict_of be em p = Write k doc -> set_raises be k = None ->
  update_raises be k = Some e -> vs !! k = Some doc ->
  quiescent be em (p :: ps) vs.
Proof.
  intros Hv Hs Hu Hvs r Hr. cbn [index_loop]. rewrite index_one_verdict, Hv.
  unfold commit, set_document, update_document. rewrite Hs, Hu.
  eexists _, (Raise e). split; [reflexivity|]. cbn. repeat split.
  - rewrite Hr, insert_id by assumption. rewrite <- Hr. now destruct (db_of r).
  - intros k' Hin. apply in_app_or in Hin as [Hin|[Hin|[]]]; [assumption|discriminate].
Qed.

(** The first run over the part [todo] of the catalog that it has not
    reached yet: whatever it does, the pending products it leaves behind
    are quiescent for the store it leaves behind. *)
Lemma first_run_leaves_quiescent be em todo :
  forall done r r' o,
    products (db_of r) = (done ++ todo)%list ->
    NoDup (map fst (done ++ todo)) -> well_keyed todo ->
    index_loop be em (pending_of todo) r = (r', o) ->
    exists todo',
      products (db_of r') = (done ++ todo')%list /\
      quiescent be em (pending_of todo') (vectors (db_of r')).
Proof.
  induction todo as [|[k d] todo IH]; intros done r r' o Hprod Hnd Hwk.
  - cbn. intros [= <- <-]. exists []. split; [assumption|apply quiescent_nil].
  - assert (Hnd' : NoDup (map fst ((done ++ [(k, d)]) ++ todo)))
      by now rewrite <- app_assoc.
    assert (Hk : ~ In k (map fst done)).
    { rewrite map_app in Hnd. apply NoDup_app in Hnd as (_ & Hdisj & _).
      intros Hin. apply list_elem_of_In in Hin. apply (Hdisj k Hin).
      apply list_elem_of_In. now left. }
    inversion Hwk as [|? ? Hid Hwk']; subst. cbn [fst snd] in Hid.
    unfold pending_of. cbn [List.filter snd].
    destruct (is_pending d) eqn:Epend; cbn [map snd].
    2:{ (* not pending: not selected, by either run *)
      intros Hl.
      destruct (IH (done ++ [(k, d)])%list r r' o) as (todo' & Hp' & Hq); auto.
      { now rewrite <- app_assoc. }
      exists ((k, d) :: todo'). split; [now rewrite <- app_assoc in Hp'|].
      unfold pending_of. cbn [List.filter snd]. now rewrite Epend. }
    fold (pending_of todo). cbn [index_loop]. rewrite index_one_verdict.
    destruct (verdict_of be em d) as [|e|k' doc|doc] eqn:Ev;
      [| | |apply verdict_Stray in Ev as [_ Hnone]; congruence].
    + (* skipped by the first run, and by the second *)
      intros Hl.
      destruct (IH (done ++ [(k, d)])%list r r' o) as (todo' & Hp' & Hq); auto.
      { now rewrite <- app_assoc. }
      exists ((k, d) :: todo'). split; [now rewrite <- app_assoc in Hp'|].
      unfold pending_of. cbn [List.filter snd]. rewrite Epend. cbn [map snd].
      now apply quiescent_skip.
    + (* the first run ends here, with nothing written *)
      intros [= <- <-]. exists ((k, d) :: todo). split; [assumption|].
      unfold pending_of. cbn [List.filter snd]. rewrite Epend. cbn [map snd].
      eapply quiescent_fail; eassumption.
    + pose proof (verdict_Write _ _ _ _ _ Ev) as [_ Hid'].
      assert (k' = k) as -> by congruence.
      destruct (commit be k doc r) as [r1 o1] eqn:Ec.
      pose proof Ec as Ec'. unfold commit, set_document in Ec'.
      destruct (set_raises be k) as [e|] eqn:Es.
      { (* the write fails *)
        injection Ec' as <- <-. intros [= <- <-].
        exists ((k, d) :: todo). split; [assumption|].
        unfold pending_of. cbn [List.filter snd]. rewrite Epend. cbn [map snd].
        eapply quiescent_set_fails; eassumption. }
      unfold update_document in Ec'.
      cbn [db_of trace stored_count products vectors] in Ec'.
      rewrite Hprod, lookup_doc_skip in Ec' by assumption.
      cbn [lookup_doc] in Ec'. rewrite String.eqb_refl in Ec'.
      destruct (update_raises be k) as [e|] eqn:Eu.
      { (* written, but the flip fails: the same write again changes nothing *)
        injection Ec' as <- <-. intros [= <- <-].
        exists ((k, d) :: todo). split; [reflexivity|].
        unfold pending_of. cbn [List.filter snd]. rewrite Epend. cbn [map snd].
        eapply quiescent_update_fails; try eassumption.
        cbn. apply lookup_insert_eq. }
      (* written and flipped: no longer pending *)
      injection Ec' as <- <-. intros Hl.
      rewrite update_doc_skip in Hl by assumption.
      cbn [update_doc] in Hl. rewrite String.eqb_refl in Hl.
      eapply (IH (done ++ [(k, mark_done d)])%list) in Hl as (todo' & Hp' & Hq);
        [ | cbn; now rewrite <- app_assoc
          | rewrite <- app_assoc; cbn; rewrite map_app in *; exact Hnd
          | assumption ].
      exists ((k, mark_done d) :: todo'). split; [now rewrite <- app_assoc in Hp'|].
      unfold pending_of. cbn [List.filter snd]. now rewrite mark_done_not_pending.
Qed.

(** Every product the loop has flipped is Done in the store it leaves. *)
Lemma index_loop_flipped_done be em products_data :
  forall r r' o,
    index_loop be em products_data r = (r', o) ->
    (forall k, In (EvUpdate k) (trace r) -> is_done k (products (db_of r))) ->
    forall k, In (EvUpdate k) (trace r') -> is_done k (products (db_of r')).
Proof.
  induction products_data as [|product rest IH]; intros r r' o; cbn [index_loop].
  - intros [= <- <-]. auto.
  - rewrite index_one_verdict.
    destruct (verdict_of be em product) as [|e|k0 doc|doc].
    + apply IH.
    + intros [= <- <-]. auto.
    + destruct (commit be k0 doc r) as [r1 o1] eqn:Ec.
      apply commit_cases in Ec
        as [[-> [e ->]]|[(e & -> & Ht & Hd & _)|(-> & Ht & Hd & _ & [d0 Hl0])]].
      * intros [= <- <-]. auto.
      * intros [= <- <-] Hinv k Hin. rewrite Ht in Hin. rewrite Hd. cbn.
        apply in_app_or in Hin as [Hin|[Hin|[]]]; [auto|discriminate].
      * intros Hl Hinv. eapply IH; [exact Hl|].
        intros k Hin. rewrite Ht in Hin. rewrite Hd. cbn.
        unfold is_done. rewrite lookup_update_doc.
        destruct (String.eqb_spec k k0) as [->|Hne].
        -- rewrite Hl0. cbn. eexists. split; [reflexivity|].
           unfold mark_done. apply lookup_insert_eq.
        -- apply in_app_or in Hin as [Hin|[Hin|[Hin|[]]]];
             [now apply Hinv|discriminate|congruence].
    + destruct (commit_stray be doc r) as [r1 o1] eqn:Ec.
      apply commit_stray_cases in Ec as (e & -> & [->|(k0 & _ & Ht & Hd & _)]).
      * intros [= <- <-]. auto.
      * intros [= <- <-] Hinv k Hin. rewrite Ht in Hin. rewrite Hd. cbn.
        apply in_app_or in Hin as [Hin|[Hin|[]]]; [auto|discriminate].
Qed.

Lemma pending_products_pending db p :
  In p (pending_products db) -> p !! "is_emb" = Some (VStr "R").
Proof.
  unfold pending_products. intros Hin.
  apply in_map_iff in Hin as ([k d] & <- & Hin).
  apply List.filter_In in Hin as [_ Hp]. cbn in *. unfold is_pending in Hp.
  destruct (d !! "is_emb") as [[]|]; try discriminate.
  apply String.eqb_eq in Hp. now subst.
Qed.

(** C8: only Pending records are selected; every record the first run
    stored is Done afterwards; and a second run over the catalog the first
    one left, with the services behaving as before, stores nothing, flips
    nothing and leaves both collections as they were. *)
Theorem second_run_stores_nothing be em db :
  NoDup (map fst (products db)) -> well_keyed (products db) ->
  let r1 := fst (store_products be em db) in
  let r2 := fst (store_products be em (db_of r1)) in
  (forall p, In p (pending_products db) -> p !! "is_emb" = Some (VStr "R")) /\
  (forall k, In (EvUpdate k) (trace r1) -> is_done k (products (db_of r1))) /\
  stored_count r2 = 0 /\
  (forall k, ~ In (EvUpdate k) (trace r2)) /\
  db_of r2 = db_of r1.
Proof.
  intros Hnd Hwk r1 r2. split; [apply pending_products_pending|].
  subst r1 r2. unfold store_products.
  destruct (query_raises be) eqn:Eq; cbn [fst db_of trace].
  { repeat split; auto; intros k []. }
  destruct (index_loop be em (pending_products db) _) as [r1 o1] eqn:E1.
  assert (Hr1 : fst (match o1 with Ok _ => (r1, true) | Raise _ => (r1, false) end) = r1)
    by now destruct o1.
  rewrite Hr1. split.
  { eapply index_loop_flipped_done; [exact E1|]. intros k []. }
  destruct (first_run_leaves_quiescent be em (products db) []
              {| db_of := db; trace := []; stored_count := 0 |} r1 o1)
    as (todo' & Hp' & Hq); auto.
  destruct (Hq {| db_of := db_of r1; trace := []; stored_count := 0 |} eq_refl)
    as (r2 & o2 & E2 & Hdb & Hcount & Htrace).
  unfold pending_products. rewrite Hp'. cbn [app]. fold (pending_of todo').
  rewrite E2.
  assert (Hr2 : fst (match o2 with Ok _ => (r2, true) | Raise _ => (r2, false) end) = r2)
    by now destruct o2.
  rewrite Hr2. repeat split; auto;
    intros k Hin; apply Htrace in Hin; destruct Hin.
Qed.

Lemma second_run_stores_nothing_witness :
  let r1 := fst (store_products (Catalog.unreachable "") Catalog.model
                                Catalog.two_pending) in
  let r2 := fst (store_products (Catalog.unreachable "") Catalog.model (db_of r1)) in
  stored_count r1 = 2 /\ stored_count r2 = 0 /\ db_of r2 = db_of r1.
Proof.
  intros r1 r2. split; [vm_compute; reflexivity|].
  destruct (second_run_stores_nothing (Catalog.unreachable "") Catalog.model
              Catalog.two_pending) as (_ & _ & H0 & _ & Hdb).
  - compute_done.
  - repeat constructor.
  - split; assumption.
Defined.

(** ** The fusion merge *)

Lemma key_in_has_id s combined_dict :
  keyed_by_id combined_dict ->
  key_in (VStr s) combined_dict = existsb (has_id s) (map snd combined_dict).
Proof.
  induction 1 as [|[k d] l Hk _ IH]; [reflexivity|].
  unfold key_in in *. cbn [existsb map fst snd] in *. subst k.
  rewrite IH. reflexivity.
Qed.

Lemma filter_existsb_false {A} (P : A -> bool) l :
  existsb P l = false -> List.filter P l = [].
Proof.
  induction l as [|x l IH]; [reflexivity|]. cbn.
  destruct (P x); [discriminate|]. exact IH.
Qed.

Lemma falsy_has_no_id s d : s <> "" -> truthy (get d "id") = false -> has_id s d = false.
Proof.
  unfold has_id. intros Hs. destruct (get d "id") as [|t| |]; try reflexivity.
  cbn. intros Ht. apply negb_false_iff, String.eqb_eq in Ht. subst t.
  now apply String.eqb_neq.
Qed.

Lemma find_app {A} (P : A -> bool) l1 l2 :
  List.find P (l1 ++ l2)
  = match List.find P l1 with
    | Some x => Some x
    | None => List.find P l2
    end.
Proof.
  induction l1 as [|x l1 IH]; [reflexivity|]. cbn. now destruct (P x).
Qed.

Lemma merge_into_first_occurrence s docs :
  s <> "" ->
  forall combined_dict res,
    merge_into combined_dict docs = Ok res -> keyed_by_id combined_dict ->
    List.filter (has_id s) (map snd res) =
    (List.filter (has_id s) (map snd combined_dict)
     ++ (if key_in (VStr s) combined_dict then []
         else at_most_one (List.find (has_id s) docs)))%list.
Proof.
  intros Hs. induction docs as [|doc rest IH]; intros acc res; cbn [merge_into].
  - intros [= <-] _. cbn. now destruct (key_in _ _); rewrite app_nil_r.
  - destruct (truthy (get doc "id")) eqn:Et.
    2:{ intros Hm Hacc. rewrite (IH _ _ Hm Hacc). cbn [List.find].
        now rewrite (falsy_has_no_id s doc Hs Et). }
    destruct (hashable (get doc "id")); [|discriminate].
    destruct (key_in (get doc "id") acc) eqn:Ein; intros Hm Hacc.
    + rewrite (IH _ _ Hm Hacc). cbn [List.find].
      destruct (has_id s doc) eqn:Eh; [|reflexivity].
      unfold has_id in Eh. destruct (get doc "id") as [|t| |]; try discriminate.
      cbn in Eh. apply String.eqb_eq in Eh. subst t. now rewrite Ein.
    + assert (Hacc' : keyed_by_id (acc ++ [(get doc "id", doc)])).
      { apply Forall_app. split; [assumption|]. now repeat constructor. }
      rewrite (IH _ _ Hm Hacc'). rewrite !key_in_has_id by assumption.
      rewrite map_app, List.filter_app, existsb_app. cbn [map snd List.filter existsb List.find].
      rewrite orb_false_r, <- app_assoc.
      destruct (has_id s doc) eqn:Eh.
      * unfold has_id in Eh. destruct (get doc "id") as [|t| |] eqn:Eid; try discriminate.
        cbn in Eh. apply String.eqb_eq in Eh. subst t.
        rewrite key_in_has_id in Ein by assumption. rewrite Ein. cbn.
        reflexivity.
      * now rewrite orb_false_r.
Qed.

Lemma merge_into_elements docs :
  forall combined_dict res,
    merge_into combined_dict docs = Ok res ->
    forall kv, In kv res ->
      In kv combined_dict \/ (In (snd kv) docs /\ truthy (get (snd kv) "id") = true).
Proof.
  induction docs as [|doc rest IH]; intros acc res; cbn [merge_into].
  - intros [= <-]. auto.
  - destruct (truthy (get doc "id")) eqn:Et.
    2:{ intros Hm kv Hin. destruct (IH _ _ Hm kv Hin) as [|[? ?]]; cbn; auto. }
    destruct (hashable (get doc "id")); [|discriminate].
    destruct (key_in (get doc "id") acc); intros Hm kv Hin.
    + destruct (IH _ _ Hm kv Hin) as [|[? ?]]; cbn; auto.
    + destruct (IH _ _ Hm kv Hin) as [Hacc|[? ?]]; cbn; auto.
      apply in_app_or in Hacc as [|[<-|[]]]; cbn; auto.
Qed.

(** C9: for every product id that occurs in either list, the merged set
    holds exactly one hit with that id: the first one in
    [text_results + image_results], hence the text hit (with the metadata
    and the score it was retrieved with) when the id occurs in both; every
    merged hit is one of the retrieved hits and has an id. *)
Theorem merge_keeps_first_occurrence text_results image_results merged s :
  merge_results text_results image_results = Ok merged ->
  s <> "" ->
  List.filter (has_id s) merged
  = at_most_one (List.find (has_id s) (text_results ++ image_results)) /\
  (forall d, List.find (has_id s) text_results = Some d ->
             List.filter (has_id s) merged = [d]) /\
  (forall d, List.find (has_id s) text_results = None ->
             List.find (has_id s) image_results = Some d ->
             List.filter (has_id s) merged = [d]) /\
  (forall h, In h merged ->
             In h (text_results ++ image_results) /\ truthy (get h "id") = true).
Proof.
  unfold merge_results. intros Hm Hs.
  destruct (merge_into [] (text_results ++ image_results)) as [res|] eqn:E;
    [|discriminate].
  cbn in Hm. injection Hm as <-.
  pose proof (merge_into_first_occurrence s _ Hs _ _ E (List.Forall_nil _)) as Hf.
  cbn in Hf. repeat split.
  - exact Hf.
  - intros d Hd. rewrite Hf, find_app, Hd. reflexivity.
  - intros d Hn Hd. rewrite Hf, find_app, Hn, Hd. reflexivity.
  - apply in_map_iff in H as (kv & <- & Hin).
    destruct (merge_into_elements _ _ _ E kv Hin) as [[]|[? _]]. assumption.
  - apply in_map_iff in H as (kv & <- & Hin).
    destruct (merge_into_elements _ _ _ E kv Hin) as [[]|[_ ?]]. assumption.
Qed.

Lemma merge_keeps_first_occurrence_witness :
  let text_hit := Fixtures.embedding_doc "A" (VVec [1; 0]%float) VNone in
  let image_hit := Fixtures.embedding_doc "A" VNone (VVec [0; 1]%float) in
  let other := Fixtures.embedding_doc "B" VNone (VVec [1; 1]%float) in
  let merged := returned (merge_results [text_hit] [image_hit; other]) in
  merge_results [text_hit] [image_hit; other] = Ok merged /\
  List.filter (has_id "A") merged = [text_hit].
Proof.
  intros text_hit image_hit other merged.
  assert (Hm : merge_results [text_hit] [image_hit; other] = Ok merged)
    by (apply Ok_returned; vm_compute; reflexivity).
  split; [exact Hm|].
  destruct (merge_keeps_first_occurrence [text_hit] [image_hit; other]
              merged "A" Hm) as (_ & H & _).
  - discriminate.
  - apply H. cbn [List.find]. replace (has_id "A" text_hit) with true; [reflexivity|].
    vm_compute. reflexivity.
Defined.

(** ** The message of a search *)

Lemma join_outcome sep items :
  is_ok (join sep items) = forallb is_str items /\
  forall e, join sep items = Raise e -> e = TypeError.
Proof.
  unfold join. induction items as [|item items [IH1 IH2]]; cbn; [split; [reflexivity|discriminate]|].
  destruct item as [|s|x|v]; cbn; try (split; [reflexivity|congruence]).
  destruct (mapM _ items) as [strs|e0]; cbn in *; [split; [assumption|discriminate]|].
  split; [assumption|]. intros e [= <-]. now apply IH2.
Qed.

Lemma forallb_mapped {A B} (f : A -> B) (P : B -> bool) l :
  forallb P (map f l) = forallb (fun x => P (f x)) l.
Proof. induction l as [|x l IH]; cbn; congruence. Qed.

Lemma info_top_results_printable field results :
  info_top_results field results
  = if printable field results then Ok tt else Raise TypeError.
Proof.
  unfold info_top_results, printable. destruct results as [|r results]; [reflexivity|].
  fold (shown field). rewrite <- (forallb_mapped (shown field) is_str).
  destruct (join_outcome ", " (map (shown field) (slice_to (r :: results) 5)))
    as [Hok Hexn].
  rewrite <- Hok.
  destruct (join _ _) as [s|e]; cbn; [reflexivity|].
  now rewrite (Hexn e eq_refl).
Qed.

Lemma printable_nil field : printable field [] = true.
Proof. reflexivity. Qed.

(** A single-modality search that has its query embedding returns the hits
    of [vector_search], unless the message cannot be built. *)
Lemma search_by_text_cases {py : platform} be db em q limit qe :
  encode_text em (VStr q) "retrieval.query" = Ok (Some qe) -> qe <> [] ->
  exists hits,
    vector_search be db qe limit "text" = Ok hits /\
    search_by_text be db em q limit
    = if printable "id" hits then Ok hits else Raise TypeError.
Proof.
  intros He Hne. destruct (vector_search_never_raises be db qe limit "text") as [hits Hs].
  exists hits. split; [assumption|].
  unfold search_by_text. rewrite He. cbn. destruct qe; [congruence|]. cbn.
  rewrite Hs. cbn. rewrite info_top_results_printable.
  unfold printable. cbn. now destruct (forallb _ _).
Qed.

Lemma search_by_image_cases {py : platform} be db em img limit qt qe :
  encode_image em img = Ok (Some qe) -> qe <> [] ->
  exists hits,
    vector_search be db qe limit qt = Ok hits /\
    search_by_image be db em img limit qt
    = if printable "product_name" hits then Ok hits else Raise TypeError.
Proof.
  intros He Hne. destruct (vector_search_never_raises be db qe limit qt) as [hits Hs].
  exists hits. split; [assumption|].
  unfold search_by_image. rewrite He. cbn. destruct qe; [congruence|]. cbn.
  rewrite Hs. cbn. rewrite info_top_results_printable.
  unfold printable. cbn. now destruct (forallb _ _).
Qed.

(** ** The multimodal search, step by step *)

Lemma search_multimodal_steps {py : platform} be db em q img limit alpha hits :
  search_multimodal be db em q img limit alpha = Ok hits ->
  hits = [] \/
  exists te ie,
    te <> [] /\ ie <> [] /\
    encode_text em (VStr q) "retrieval.query" = Ok (Some te) /\
    encode_image em img = Ok (Some ie) /\
    fusion_steps be db limit alpha te ie hits.
Proof.
  unfold search_multimodal.
  destruct (encode_text em (VStr q) "retrieval.query") as [te|]; [|discriminate].
  destruct (encode_image em img) as [ie|]; [|discriminate]. cbn.
  destruct te as [[|t0 te]|]; cbn; try (intros [= <-]; now left).
  destruct ie as [[|i0 ie]|]; cbn; try (intros [= <-]; now left).
  destruct (vector_search be db (t0 :: te) limit "text") as [tr|] eqn:Etr;
    [|discriminate].
  destruct (vector_search be db (i0 :: ie) limit "image") as [ir|] eqn:Eir;
    [|discriminate]. cbn.
  destruct (merge_results tr ir) as [mg|] eqn:Emg; [|discriminate]. cbn.
  destruct (mapM (add_combined alpha) mg) as [cs|] eqn:Ecs; [|discriminate]. cbn.
  destruct (sort_by _ cs) as [rk|] eqn:Erk; [|discriminate]. cbn.
  destruct (info_top_results _ _); [|discriminate]. cbn.
  intros [= <-]. right. exists (t0 :: te), (i0 :: ie).
  repeat split; try discriminate.
  econstructor; eauto.
Qed.

Lemma search_multimodal_fusion {py : platform} be db em q img limit alpha hits te ie :
  search_multimodal be db em q img limit alpha = Ok hits ->
  encode_text em (VStr q) "retrieval.query" = Ok (Some te) -> te <> [] ->
  encode_image em img = Ok (Some ie) -> ie <> [] ->
  fusion_steps be db limit alpha te ie hits.
Proof.
  unfold search_multimodal. intros Hs Hte Htne Hie Hine.
  rewrite Hte, Hie in Hs. cbn in Hs.
  destruct te as [|t0 te]; [congruence|]. destruct ie as [|i0 ie]; [congruence|].
  cbn in Hs.
  destruct (vector_search be db (t0 :: te) limit "text") as [tr|] eqn:Etr;
    [|discriminate].
  destruct (vector_search be db (i0 :: ie) limit "image") as [ir|] eqn:Eir;
    [|discriminate]. cbn in Hs.
  destruct (merge_results tr ir) as [mg|] eqn:Emg; [|discriminate]. cbn in Hs.
  destruct (mapM (add_combined alpha) mg) as [cs|] eqn:Ecs; [|discriminate].
  cbn in Hs.
  destruct (sort_by _ cs) as [rk|] eqn:Erk; [|discriminate]. cbn in Hs.
  destruct (info_top_results _ _); [|discriminate]. cbn in Hs.
  injection Hs as <-. econstructor; eauto.
Qed.

Lemma vector_search_elements {py : platform} be db qe limit qt res h :
  vector_search be db qe limit qt = Ok res -> In h res ->
  exists docs d,
    find_nearest be (vectors db) (vector_field_name qt) qe limit = Ok docs /\
    In d docs /\ h = make_hit be db qe (vector_field_name qt) d.
Proof.
  unfold vector_search.
  destruct (find_nearest be (vectors db) (vector_field_name qt) qe limit)
    as [docs|]; cbn; [|intros [= <-] []].
  destruct (sort_by _ _) as [r|] eqn:Es; cbn; [|intros [= <-] []].
  intros [= <-] Hin. apply sort_by_perm in Es.
  apply (Permutation_in _ Es) in Hin.
  apply in_map_iff in Hin as (d & <- & Hd). eauto.
Qed.

Lemma take_elements {A} n (l : list A) x : In x (take n l) -> In x l.
Proof.
  revert l. induction n as [|n IH]; intros [|y l]; cbn; try tauto.
  intros [->|Hin]; auto.
Qed.

Lemma slice_to_elements {A} (l : list A) n x : In x (slice_to l n) -> In x l.
Proof.
  unfold slice_to. destruct (0 <=? n)%Z; apply take_elements.
Qed.

Lemma mapM_elements {A B} (f : A -> outcome B) l r y :
  mapM f l = Ok r -> In y r -> exists x, In x l /\ f x = Ok y.
Proof.
  intros Hm. apply mapM_Ok in Hm. induction Hm as [|x y' l r Hxy _ IH]; intros Hin.
  - destruct Hin.
  - destruct Hin as [<-|Hin]; [exists x; cbn; auto|].
    destruct (IH Hin) as (x' & ? & ?). exists x'. cbn. auto.
Qed.

(** The hits of a multimodal search are candidates: hits of one of the two
    searches, with their combined embedding added. *)
Lemma fusion_candidates {py : platform} be db limit alpha te ie hits :
  fusion_steps be db limit alpha te ie hits ->
  exists text_results image_results merged candidates ranked,
    vector_search be db te limit "text" = Ok text_results /\
    vector_search be db ie limit "image" = Ok image_results /\
    merge_results text_results image_results = Ok merged /\
    mapM (add_combined alpha) merged = Ok candidates /\
    hits = slice_to ranked limit /\
    Permutation ranked candidates /\
    (Forall (fun c => not_nan (cosine_score alpha te ie c)) candidates ->
     ranked = sort_desc (cosine_score alpha te ie) candidates) /\
    Forall (fun c => fused_score (weighted alpha ie te) c
                     = Ok (cosine_score alpha te ie c)) candidates /\
    (forall h, In h hits -> In h candidates).
Proof.
  intros [tr ir mg cs rk Htr Hir Hmg Hcs Hrk ->].
  apply (sort_by_Ok (fused_score (weighted alpha ie te))) in Hrk
    as (Hkeys & Hperm & Hsorted).
  exists tr, ir, mg, cs, rk. repeat split; auto.
  intros h Hin. apply slice_to_elements in Hin.
  now apply (Permutation_in _ Hperm) in Hin.
Qed.

Lemma merged_from_searches text_results image_results merged m :
  merge_results text_results image_results = Ok merged -> In m merged ->
  In m (text_results ++ image_results).
Proof.
  unfold merge_results. intros Hmg Hin.
  destruct (merge_into [] (text_results ++ image_results)) as [res|] eqn:E;
    [|discriminate].
  cbn in Hmg. injection Hmg as <-.
  apply in_map_iff in Hin as (kv & <- & Hkv).
  destruct (merge_into_elements _ _ _ E kv Hkv) as [[]|[? _]]. assumption.
Qed.

(** A hit of the multimodal search, traced back to the candidate document
    of the store it was made from. *)
Lemma multimodal_hit_origin {py : platform} be db em q img limit alpha hits h :
  search_multimodal be db em q img limit alpha = Ok hits ->
  In h hits ->
  exists te ie field qe docs d c,
    encode_text em (VStr q) "retrieval.query" = Ok (Some te) /\
    encode_image em img = Ok (Some ie) /\
    ((field = "text_embedding" /\ qe = te) \/
     (field = "image_embedding" /\ qe = ie)) /\
    find_nearest be (vectors db) field qe limit = Ok docs /\ In d docs /\
    combined_embedding alpha (make_hit be db qe field d) = Ok c /\
    h = <["combined_embedding" := c]> (make_hit be db qe field d).
Proof.
  intros Hs Hin.
  apply search_multimodal_steps in Hs as [->|(te & ie & _ & _ & Hte & Hie & St)];
    [destruct Hin|].
  apply fusion_candidates in St
    as (tr & ir & mg & cs & rk & Htr & Hir & Hmg & Hcs & _ & _ & _ & _ & Hsub).
  apply Hsub in Hin.
  destruct (mapM_elements _ _ _ _ Hcs Hin) as (h0 & Hh0 & Hadd).
  unfold add_combined in Hadd.
  destruct (combined_embedding alpha h0) as [c|] eqn:Ec; [|discriminate].
  cbn in Hadd. injection Hadd as <-.
  apply (merged_from_searches _ _ _ _ Hmg) in Hh0.
  apply in_app_or in Hh0 as [Hfrom|Hfrom].
  - destruct (vector_search_elements _ _ _ _ _ _ _ Htr Hfrom) as (docs & d & Hn & Hd & ->).
    exists te, ie, "text_embedding", te, docs, d, c. repeat split; auto.
  - destruct (vector_search_elements _ _ _ _ _ _ _ Hir Hfrom) as (docs & d & Hn & Hd & ->).
    exists te, ie, "image_embedding", ie, docs, d, c. repeat split; auto.
Qed.

(** C10, as the code has it: a hit returned by the multimodal search is a
    hit of one of the two single-modality searches to which only the key
    [combined_embedding] was added.  Its [similarity_score] is the one that
    search gave it: the value of the catalog document's own field
    [similarity_score] when it has one, the recomputed dot product ([0.0] on
    a missing or misaligned vector) otherwise.  The cosine score ranks the
    hits and is stored nowhere. *)
Theorem multimodal_keeps_retrieval_score {py : platform}
    be db em q img limit alpha hits h :
  search_multimodal be db em q img limit alpha = Ok hits ->
  In h hits ->
  exists te ie field qe docs d c,
    encode_text em (VStr q) "retrieval.query" = Ok (Some te) /\
    encode_image em img = Ok (Some ie) /\
    ((field = "text_embedding" /\ qe = te) \/
     (field = "image_embedding" /\ qe = ie)) /\
    find_nearest be (vectors db) field qe limit = Ok docs /\ In d docs /\
    combined_embedding alpha (make_hit be db qe field d) = Ok c /\
    h = <["combined_embedding" := c]> (make_hit be db qe field d) /\
    h !! "similarity_score"
    = Some (default (VNum (stored_score qe field d))
                    (catalog_fields be db d !! "similarity_score")) /\
    (no_score_field db ->
     h !! "similarity_score" = Some (VNum (stored_score qe field d))) /\
    (forall v, as_list (get d field) = Some v -> v <> [] -> length v = length qe ->
       stored_score qe field d = np_dot qe v) /\
    (nonempty (as_list (get d field)) = false \/
     length (default [] (as_list (get d field))) <> length qe ->
     stored_score qe field d = 0%float).
Proof.
  intros Hs Hin.
  destruct (multimodal_hit_origin _ _ _ _ _ _ _ _ _ Hs Hin)
    as (te & ie & field & qe & docs & d & c & Hte & Hie & Hf & Hn & Hd & Hc & ->).
  exists te, ie, field, qe, docs, d, c.
  assert (Hscore : (<["combined_embedding" := c]> (make_hit be db qe field d))
                     !! "similarity_score"
                   = Some (default (VNum (stored_score qe field d))
                             (catalog_fields be db d !! "similarity_score"))).
  { rewrite lookup_insert_ne by discriminate. rewrite make_hit_field.
    destruct (catalog_fields be db d !! "similarity_score"); [reflexivity|].
    apply bare_hit_similarity_score. }
  repeat split; auto.
  - intros Hdb. rewrite Hscore, no_score_field_catalog by assumption. reflexivity.
  - apply stored_score_aligned.
  - apply stored_score_malformed.
Qed.

(** C10 fails as stated: the catalog document of [A] has a field
    [similarity_score] of its own, 99.  The hit exposes 99, not the dot
    product 3 of the query with the stored vector of [A]. *)
Lemma catalog_score_replaces_dot_product :
  let _ : platform := Fixtures.exact in
  let pd : dict := {[ "id" := VStr "A"; "similarity_score" := VNum 99 ]} in
  let db := {| products := [("A", pd)]; vectors := ∅ |} in
  let answer := search_multimodal (Fixtures.answering [Shop.A]) db Shop.model
                                  "noodles" (RGB "") 30 0.5 in
  is_ok answer = true /\
  map (fun hit => (get hit "id", get hit "similarity_score")) (returned answer)
  = [(VStr "A", VNum 99)] /\
  stored_score [1; 0]%float "text_embedding" Shop.A = 3%float.
Proof. repeat split; vm_compute; reflexivity. Qed.

Lemma multimodal_keeps_retrieval_score_witness :
  let _ : platform := Fixtures.exact in
  let hits := returned (search_multimodal Shop.store Fixtures.empty_db Shop.model
                                              "noodles" (RGB "") 30 0) in
  search_multimodal Shop.store Fixtures.empty_db Shop.model "noodles" (RGB "") 30 0
  = Ok hits /\
  exists h qe field d,
    In h hits /\ h !! "similarity_score" = Some (VNum (stored_score qe field d)).
Proof.
  intros py hits.
  assert (E : search_multimodal Shop.store Fixtures.empty_db Shop.model
                "noodles" (RGB "") 30 0 = Ok hits)
    by (apply Ok_returned; vm_compute; reflexivity).
  split; [exact E|].
  assert (Hin : In (hd ∅ hits) hits)
    by (apply hd_In; replace (length hits) with 2; [discriminate|];
        vm_compute; reflexivity).
  destruct (multimodal_keeps_retrieval_score Shop.store Fixtures.empty_db Shop.model
              "noodles" (RGB "") 30 0 hits (hd ∅ hits) E Hin)
    as (te & ie & field & qe & docs & d & c & _ & _ & _ & _ & _ & _ & _ & _ & Hscore & _).
  exists (hd ∅ hits), qe, field, d. split; [exact Hin|].
  apply Hscore. exact empty_db_no_score_field.
Defined.

(** ** The combined embedding and the cosine *)

(** A product of a number with itself, and a sum of such products, is not
    negative: the base of [** 0.5] in [cosine_similarity] never is. *)
Lemma round_not_negative m e l :
  not_negative (binary_round_aux prec emax false m e l).
Proof.
  unfold binary_round_aux.
  destruct (shr_fexp _ _ _ _ _) as [mrs e']. destruct (shr_fexp _ _ _ _ _) as [mrs' e''].
  destruct (shr_m mrs'); cbn; auto.
  destruct (_ <=? _)%Z; cbn; auto.
Qed.

Lemma binary_round_not_negative m e : not_negative (binary_round prec emax false m e).
Proof.
  unfold binary_round. destruct (shl_align _ _ _) as [mz ez]. apply round_not_negative.
Qed.

Lemma square_not_negative x : not_negative (Prim2SF (PrimFloat.mul x x)).
Proof.
  rewrite mul_spec. destruct (Prim2SF x) as [s|s| |s m e]; cbn; auto.
  - now destruct s.
  - rewrite xorb_nilpotent. apply round_not_negative.
Qed.

Lemma add_not_negative x y :
  not_negative (Prim2SF x) -> not_negative (Prim2SF y) ->
  not_negative (Prim2SF (PrimFloat.add x y)).
Proof.
  rewrite add_spec.
  destruct (Prim2SF x) as [sx|sx| |sx mx ex], (Prim2SF y) as [sy|sy| |sy my ey];
    cbn; auto; intros Hx Hy; subst; cbn; auto.
  - now destruct sx, sy.
  - unfold binary_normalize. cbn [Z.add]. apply binary_round_not_negative.
Qed.

Lemma fsum_squares_not_negative a :
  not_negative (Prim2SF (fsum (map (fun x => PrimFloat.mul x x) a))).
Proof.
  unfold fsum.
  assert (Hacc : forall l acc, not_negative (Prim2SF acc) ->
            not_negative (Prim2SF (fold_left PrimFloat.add
                                     (map (fun x => PrimFloat.mul x x) l) acc))).
  { induction l as [|x l IH]; cbn; intros acc Hacc; [assumption|].
    apply IH, add_not_negative; [assumption|apply square_not_negative]. }
  apply Hacc. cbn. exact I.
Qed.

Lemma fsum_squares_zero a :
  all_zero a -> fsum (map (fun x => PrimFloat.mul x x) a) = 0%float.
Proof.
  unfold fsum. induction 1 as [|x a [-> | ->] _ IH]; [reflexivity| |]; exact IH.
Qed.

Lemma cosine_zero_l {py : platform} a b : all_zero a -> cosine_similarity a b = Ok 0%float.
Proof.
  intros Ha. unfold cosine_similarity. now rewrite (fsum_squares_zero a Ha).
Qed.



(** [zip] reads its arguments up to the length of the shorter one. *)
Lemma weighted_common_prefix alpha image_emb text_emb :
  let n := Nat.min (length image_emb) (length text_emb) in
  weighted alpha image_emb text_emb
  = weighted alpha (take n image_emb) (take n text_emb).
Proof.
  cbv zeta. unfold weighted. f_equal.
  revert text_emb. induction image_emb as [|i l IH]; intros [|t l']; cbn; try reflexivity.
  now rewrite <- IH.
Qed.

(** The combined embedding that [add_combined] stores, case by case. *)
Lemma add_combined_cases {py : platform} alpha q m c :
  add_combined alpha m = Ok c ->
  exists v,
    c = <["combined_embedding" := v]> m /\
    (forall i t,
       get_or_empty m "image_embedding" = VVec i -> i <> [] ->
       get_or_empty m "text_embedding" = VVec t -> t <> [] ->
       v = VVec (weighted alpha i t)) /\
    (truthy (get_or_empty m "text_embedding") = true ->
     truthy (get_or_empty m "image_embedding") = false ->
     v = get_or_empty m "text_embedding") /\
    (truthy (get_or_empty m "text_embedding") = false ->
     truthy (get_or_empty m "image_embedding") = true ->
     v = get_or_empty m "image_embedding") /\
    (truthy (get_or_empty m "text_embedding") = false ->
     truthy (get_or_empty m "image_embedding") = false ->
     v = VVec [] /\ fused_score q c = Ok 0%float).
Proof.
  unfold add_combined, combined_embedding.
  destruct (truthy (get_or_empty m "text_embedding")) eqn:Et,
    (truthy (get_or_empty m "image_embedding")) eqn:Ei; cbn [andb].
  - destruct (get_or_empty m "image_embedding") as [| | |i] eqn:Hi; try discriminate.
    destruct (get_or_empty m "text_embedding") as [| | |t] eqn:Ht; try discriminate.
    cbn. intros [= <-]. eexists. split; [reflexivity|].
    repeat split; try discriminate.
    intros i' t' [= <-] _ [= <-] _. reflexivity.
  - cbn. intros [= <-]. eexists. split; [reflexivity|].
    repeat split; try discriminate; try reflexivity.
    intros i t Hi Hine. rewrite Hi in Ei. destruct i; [congruence|discriminate].
  - cbn. intros [= <-]. eexists. split; [reflexivity|].
    repeat split; try discriminate; try reflexivity.
    intros i t _ _ Ht Htne. rewrite Ht in Et. destruct t; [congruence|discriminate].
  - cbn. intros [= <-]. eexists. split; [reflexivity|].
    repeat split; try discriminate; try reflexivity.
    + intros i t Hi Hine. rewrite Hi in Ei. destruct i; [congruence|discriminate].
    + unfold fused_score, get_or_empty. rewrite lookup_insert_eq.
      cbn [default]. apply cosine_zero_l. constructor.
Qed.



Example combined_embedding_example :
  combined_embedding 0.25
    (Fixtures.embedding_doc "A" (VVec [4; 8]%float) (VVec [8; 0]%float))
  = Ok (VVec [5; 6]%float).
Proof. vm_compute. reflexivity. Qed.

(** ** The fused ranking *)

(** C6, as the code has it: at [alpha = 0] and [alpha = 1], as at every
    [alpha], every hit of the fused search is one of the merged candidates,
    scored by the cosine similarity between its combined embedding and the
    combined query embedding; when none of these scores is NaN the hits are
    the merged candidates in descending order of that score, ties in merge
    order, cut to [limit].  It is a ranking by cosine, not the ranking by dot
    product of the single-modality search. *)
Theorem fused_ranking_is_by_cosine {py : platform}
    be db em q img limit alpha hits te ie :
  search_multimodal be db em q img limit alpha = Ok hits ->
  encode_text em (VStr q) "retrieval.query" = Ok (Some te) -> te <> [] ->
  encode_image em img = Ok (Some ie) -> ie <> [] ->
  exists text_results image_results merged candidates,
    vector_search be db te limit "text" = Ok text_results /\
    vector_search be db ie limit "image" = Ok image_results /\
    merge_results text_results image_results = Ok merged /\
    mapM (add_combined alpha) merged = Ok candidates /\
    (forall c, In c candidates ->
       exists m v, In m merged /\ combined_embedding alpha m = Ok (VVec v) /\
         c = <["combined_embedding" := VVec v]> m /\
         cosine_similarity v (weighted alpha ie te) = Ok (cosine_score alpha te ie c)) /\
    (forall h, In h hits -> In h candidates) /\
    (Forall (fun c => not_nan (cosine_score alpha te ie c)) candidates ->
     let ranked := sort_desc (cosine_score alpha te ie) candidates in
     hits = slice_to ranked limit /\
     Permutation ranked candidates /\
     StronglySorted (desc (cosine_score alpha te ie)) ranked /\
     (forall s,
        List.filter (fun c => PrimFloat.eqb (cosine_score alpha te ie c) s) ranked
        = List.filter (fun c => PrimFloat.eqb (cosine_score alpha te ie c) s)
                      candidates)).
Proof.
  intros Hs Hte Htne Hie Hine.
  pose proof (search_multimodal_fusion _ _ _ _ _ _ _ _ _ _ Hs Hte Htne Hie Hine) as St.
  apply fusion_candidates in St
    as (tr & ir & mg & cs & rk & Htr & Hir & Hmg & Hcs & Hhits & _ & Hranked & Hkeys & Hsub).
  exists tr, ir, mg, cs.
  split; [exact Htr|]. split; [exact Hir|]. split; [exact Hmg|].
  split; [exact Hcs|]. split; [|split; [exact Hsub|]].
  - intros c Hc.
    destruct (mapM_elements _ _ _ _ Hcs Hc) as (m & Hm & Hadd).
    unfold add_combined in Hadd.
    destruct (combined_embedding alpha m) as [v|] eqn:Ev; [|discriminate].
    cbn in Hadd. injection Hadd as <-.
    rewrite List.Forall_forall in Hkeys. specialize (Hkeys _ Hc).
    rewrite <- Hkeys.
    unfold fused_score, get_or_empty in *. rewrite lookup_insert_eq in *.
    cbn [default] in *. destruct v as [| | |v]; try discriminate.
    exists m, v. auto.
  - intros Hnan. cbv zeta. rewrite <- (Hranked Hnan).
    split; [exact Hhits|]. rewrite (Hranked Hnan). split; [apply sort_desc_perm|].
    split; [now apply sort_desc_sorted|].
    intros s. apply sort_desc_ties.
Qed.

(** C6 fails as stated: the text-only search ranks [A] (dot product 3)
    before [B] (dot product 1), and so does the image-only search; the fused
    search ranks [B] (cosine 1) before [A] (cosine 0.6), at [alpha = 0] and
    at [alpha = 1], on the same candidate set. *)
Lemma fused_ranking_differs_from_single_modality :
  let _ : platform := Fixtures.exact in
  Shop.ids (search_by_text Shop.store Fixtures.empty_db Shop.model "noodles" 30)
  = Ok [VStr "A"; VStr "B"] /\
  Shop.ids (search_by_image Shop.store Fixtures.empty_db Shop.model (RGB "") 30 "image")
  = Ok [VStr "A"; VStr "B"] /\
  Shop.ids (search_multimodal Shop.store Fixtures.empty_db Shop.model
                              "noodles" (RGB "") 30 0)
  = Ok [VStr "B"; VStr "A"] /\
  Shop.ids (search_multimodal Shop.store Fixtures.empty_db Shop.model
                              "noodles" (RGB "") 30 1)
  = Ok [VStr "B"; VStr "A"].
Proof. repeat split; vm_compute; reflexivity. Qed.

Lemma Forall_forallb {A} (P : A -> Prop) (p : A -> bool) l :
  (forall x, p x = true -> P x) -> forallb p l = true -> Forall P l.
Proof.
  intros Hp Hl. apply List.Forall_forall. intros x Hx.
  apply Hp. rewrite forallb_forall in Hl. now apply Hl.
Qed.

Lemma fused_ranking_is_by_cosine_witness :
  let _ : platform := Fixtures.exact in
  let hits := returned (search_multimodal Shop.store Fixtures.empty_db Shop.model
                                              "noodles" (RGB "") 30 0) in
  search_multimodal Shop.store Fixtures.empty_db Shop.model "noodles" (RGB "") 30 0
  = Ok hits /\
  exists candidates,
    hits = slice_to (sort_desc (cosine_score 0 [1; 0]%float [1; 0]%float) candidates) 30 /\
    StronglySorted (desc (cosine_score 0 [1; 0]%float [1; 0]%float))
                   (sort_desc (cosine_score 0 [1; 0]%float [1; 0]%float) candidates).
Proof.
  intros py hits.
  assert (E : search_multimodal Shop.store Fixtures.empty_db Shop.model
                "noodles" (RGB "") 30 0 = Ok hits)
    by (apply Ok_returned; vm_compute; reflexivity).
  split; [exact E|].
  destruct (fused_ranking_is_by_cosine Shop.store Fixtures.empty_db Shop.model
              "noodles" (RGB "") 30 0 hits [1; 0]%float [1; 0]%float E)
    as (tr & ir & mg & cs & Htr & Hir & Hmg & Hcs & _ & _ & Hranked);
    [reflexivity | discriminate | reflexivity | discriminate |].
  assert (Ecs : cs = returned (mapM (add_combined 0)
                  (returned (merge_results
                     (returned (vector_search Shop.store Fixtures.empty_db
                                  [1; 0]%float 30 "text"))
                     (returned (vector_search Shop.store Fixtures.empty_db
                                  [1; 0]%float 30 "image")))))).
  { rewrite Htr, Hir. cbn [returned]. rewrite Hmg. cbn [returned]. now rewrite Hcs. }
  destruct Hranked as (Hhits & _ & Hsorted & _).
  { rewrite Ecs.
    apply (Forall_forallb _ (fun c => negb (PrimFloat.is_nan
                                (cosine_score 0 [1; 0]%float [1; 0]%float c)))).
    - intros c Hc. now apply negb_true_iff in Hc.
    - vm_compute. reflexivity. }
  exists cs. split; assumption.
Defined.

(** ** Failures during a search *)

Lemma JinaCLIP_text_None mt mi text task :
  (exists e, mt text task = Raise e) ->
  encode_text (JinaCLIPEmbedding mt mi) text task = Ok None.
Proof. intros [e He]. cbn. now rewrite He. Qed.

Lemma JinaCLIP_image_None mt mi img :
  (exists e, mi img = Raise e) ->
  encode_image (JinaCLIPEmbedding mt mi) img = Ok None.
Proof. intros [e He]. cbn. now rewrite He. Qed.

Lemma JinaCLIP_never_raises mt mi :
  (forall text task, exists o, encode_text (JinaCLIPEmbedding mt mi) text task = Ok o) /\
  (forall img, exists o, encode_image (JinaCLIPEmbedding mt mi) img = Ok o).
Proof.
  split; intros; cbn.
  - destruct (mt text task); cbn; eauto.
  - destruct (mi img); cbn; eauto.
Qed.

Lemma vector_search_store_down {py : platform} be db qe limit qt e :
  find_nearest be (vectors db) (vector_field_name qt) qe limit = Raise e ->
  vector_search be db qe limit qt = Ok [].
Proof. intros Hd. unfold vector_search. now rewrite Hd. Qed.

Lemma searches_with_store_down {py : platform} be db mt mi q img limit alpha qt :
  store_unreachable be db ->
  let em := JinaCLIPEmbedding mt mi in
  search_by_text be db em q limit = Ok [] /\
  search_by_image be db em img limit qt = Ok [] /\
  search_multimodal be db em q img limit alpha = Ok [].
Proof.
  intros Hdown em. subst em.
  assert (Hvs : forall qe qt', vector_search be db qe limit qt' = Ok []).
  { intros qe qt'. destruct (Hdown (vector_field_name qt') qe limit) as [e He].
    eapply vector_search_store_down. eassumption. }
  unfold search_by_text, search_by_image, search_multimodal. cbn.
  split; [|split].
  - destruct (mt (VStr q) "retrieval.query") as [[|]|]; cbn; auto.
    now rewrite Hvs.
  - destruct (mi img) as [[|]|]; cbn; auto. now rewrite Hvs.
  - destruct (mt (VStr q) "retrieval.query") as [[|]|], (mi img) as [[|]|];
      cbn; try reflexivity.
    rewrite !Hvs. cbn. unfold slice_to. now destruct (0 <=? limit)%Z; rewrite take_nil.
Qed.

(** The exceptions that the steps of a search can raise by themselves. *)
Lemma mapM_raise {A B} (f : A -> outcome B) l e :
  mapM f l = Raise e -> exists x, In x l /\ f x = Raise e.
Proof.
  induction l as [|x l IH]; cbn; [discriminate|].
  destruct (f x) as [y|e0] eqn:Ef; cbn.
  - destruct (mapM f l) as [ys|e1]; cbn; [discriminate|].
    intros [= <-]. destruct (IH eq_refl) as (x' & ? & ?). eauto.
  - intros [= <-]. eauto.
Qed.

Lemma value_lt_raise a b e : value_lt a b = Raise e -> e = TypeError.
Proof. destruct a, b; cbn; congruence. Qed.

Lemma insert_by_raise {A} (x : value * A) l e :
  insert_by x l = Raise e -> e = TypeError.
Proof.
  induction l as [|y l IH]; cbn; [discriminate|].
  destruct (value_lt (fst x) (fst y)) as [[]|e0] eqn:El; cbn.
  - destruct (insert_by x l); cbn; [discriminate|]. intros [= <-]. now apply IH.
  - discriminate.
  - intros [= <-]. eapply value_lt_raise. eassumption.
Qed.

Lemma sort_decorated_raise {A} (l : list (value * A)) e :
  sort_decorated l = Raise e -> e = TypeError.
Proof.
  induction l as [|x l IH]; cbn; [discriminate|].
  destruct (sort_decorated l) as [sorted|e0]; cbn.
  - apply insert_by_raise.
  - intros [= <-]. now apply IH.
Qed.

Lemma sort_by_raise `{platform} {A} (key : A -> outcome value) l e :
  sort_by key l = Raise e ->
  (exists x, In x l /\ key x = Raise e) \/ e = TypeError.
Proof.
  unfold sort_by. destruct (mapM key l) as [keys|e0] eqn:Ek; cbn.
  - destruct (sort_decorated _) as [d|e1] eqn:Ed; cbn;
      [destruct (existsb _ _); discriminate|].
    intros [= <-]. right. eapply sort_decorated_raise. eassumption.
  - intros [= <-]. left. now apply mapM_raise.
Qed.

Lemma merge_into_raise docs :
  forall combined_dict e, merge_into combined_dict docs = Raise e -> e = TypeError.
Proof.
  induction docs as [|doc rest IH]; intros acc e; cbn; [discriminate|].
  destruct (truthy (get doc "id")); [|apply IH].
  destruct (hashable (get doc "id")); [|congruence].
  destruct (key_in (get doc "id") acc); apply IH.
Qed.

Lemma combined_embedding_raise alpha doc e :
  combined_embedding alpha doc = Raise e -> e = TypeError.
Proof.
  unfold combined_embedding.
  destruct (truthy _ && truthy _).
  - destruct (get_or_empty doc "image_embedding"), (get_or_empty doc "text_embedding");
      congruence.
  - destruct (truthy _); [discriminate|]. destruct (truthy _); discriminate.
Qed.

Lemma fused_score_raise {py : platform} q doc e :
  fused_score q doc = Raise e -> e = TypeError \/ e = ZeroDivisionError.
Proof.
  unfold fused_score, cosine_similarity.
  destruct (get_or_empty doc "combined_embedding"); try (intros [= <-]; now left).
  destruct (_ && _); [|discriminate].
  destruct (is_zero _); [|discriminate]. intros [= <-]. now right.
Qed.

Lemma search_multimodal_raise {py : platform} be db mt mi q img limit alpha e :
  search_multimodal be db (JinaCLIPEmbedding mt mi) q img limit alpha = Raise e ->
  e = TypeError \/ e = ZeroDivisionError.
Proof.
  unfold search_multimodal. cbn.
  destruct (mt (VStr q) "retrieval.query") as [te|]; cbn;
    destruct (mi img) as [ie|]; cbn; try discriminate;
    try (destruct te; discriminate).
  destruct te as [|t0 te]; cbn; [discriminate|].
  destruct ie as [|i0 ie]; cbn; [discriminate|].
  destruct (vector_search_never_raises be db (t0 :: te) limit "text") as [tr ->].
  destruct (vector_search_never_raises be db (i0 :: ie) limit "image") as [ir ->].
  cbn.
  destruct (merge_results tr ir) as [mg|e0] eqn:Emg; cbn.
  2:{ intros [= <-]. left. unfold merge_results in Emg.
      destruct (merge_into [] (tr ++ ir)) as [res|e1] eqn:Em; [discriminate|].
      cbn in Emg. injection Emg as <-. eapply merge_into_raise. eassumption. }
  destruct (mapM (add_combined alpha) mg) as [cs|e0] eqn:Ecs; cbn.
  2:{ intros [= <-]. left. apply mapM_raise in Ecs as (m & _ & Hm).
      unfold add_combined in Hm.
      destruct (combined_embedding alpha m) as [c|e1] eqn:Ec; [discriminate|].
      cbn in Hm. injection Hm as <-. eapply combined_embedding_raise. eassumption. }
  destruct (sort_by _ cs) as [rk|e0] eqn:Erk; cbn.
  2:{ intros [= <-]. apply sort_by_raise in Erk as [(c & _ & Hc)| ->]; [|now left].
      destruct (fused_score _ c) as [s|e1] eqn:Ef; [discriminate|].
      cbn in Hc. injection Hc as <-. eapply fused_score_raise. eassumption. }
  rewrite info_top_results_printable.
  destruct (printable _ _); cbn; [discriminate|]. intros [= <-]. now left.
Qed.

Lemma search_by_text_raise {py : platform} be db mt mi q limit e :
  search_by_text be db (JinaCLIPEmbedding mt mi) q limit = Raise e -> e = TypeError.
Proof.
  unfold search_by_text. cbn.
  destruct (mt (VStr q) "retrieval.query") as [[|x qe]|]; cbn; try discriminate.
  destruct (vector_search_never_raises be db (x :: qe) limit "text") as [hits ->].
  cbn. rewrite info_top_results_printable.
  destruct (printable "id" hits); cbn; congruence.
Qed.

(** C7, as the code has it: when the model cannot produce the query
    embedding (it raises, or answers an empty vector) each search returns the
    empty list; when the store cannot be reached each search returns the
    empty list as well: [vector_search] absorbs the failure, so the caller
    sees the same result as for "nothing to search" and no error.  What a
    search does raise is an exception of its own computation on the hits: the
    single-modality searches raise [TypeError] exactly when the message
    about the first five hits cannot be built (an id, or a product name, that
    is not a string). *)
Theorem search_failures_give_empty_list {py : platform}
    be db mt mi q img limit alpha qt :
  let em := JinaCLIPEmbedding mt mi in
  (((exists e, mt (VStr q) "retrieval.query" = Raise e) \/
    mt (VStr q) "retrieval.query" = Ok []) ->
   search_by_text be db em q limit = Ok [] /\
   search_multimodal be db em q img limit alpha = Ok []) /\
  (((exists e, mi img = Raise e) \/ mi img = Ok []) ->
   search_by_image be db em img limit qt = Ok [] /\
   search_multimodal be db em q img limit alpha = Ok []) /\
  (store_unreachable be db ->
   search_by_text be db em q limit = Ok [] /\
   search_by_image be db em img limit qt = Ok [] /\
   search_multimodal be db em q img limit alpha = Ok []) /\
  (forall e, search_by_text be db em q limit = Raise e <->
     e = TypeError /\
     exists qe hits,
       mt (VStr q) "retrieval.query" = Ok qe /\ qe <> [] /\
       vector_search be db qe limit "text" = Ok hits /\
       printable "id" hits = false) /\
  (forall e, search_by_image be db em img limit qt = Raise e <->
     e = TypeError /\
     exists qe hits,
       mi img = Ok qe /\ qe <> [] /\
       vector_search be db qe limit qt = Ok hits /\
       printable "product_name" hits = false) /\
  (forall e, search_multimodal be db em q img limit alpha = Raise e ->
     e = TypeError \/ e = ZeroDivisionError).
Proof.
  cbv zeta. split; [|split; [|split; [|split; [|split]]]].
  - intros Hfail. unfold search_by_text, search_multimodal. cbn.
    destruct Hfail as [[e ->]| ->]; cbn; [split; [reflexivity|]..].
    + now destruct (mi img).
    + now destruct (mi img).
  - intros Hfail. unfold search_by_image, search_multimodal. cbn.
    destruct Hfail as [[e ->]| ->]; cbn; (split; [reflexivity|]).
    + destruct (mt (VStr q) "retrieval.query") as [[|]|]; cbn; reflexivity.
    + destruct (mt (VStr q) "retrieval.query") as [[|]|]; cbn; reflexivity.
  - intros Hdown. now apply searches_with_store_down.
  - intros e. destruct (mt (VStr q) "retrieval.query") as [qe|e0] eqn:Emt.
    + destruct qe as [|x qe].
      * unfold search_by_text. cbn. rewrite Emt. cbn.
        split; [discriminate|]. intros (_ & qe' & hits & [= <-] & Hne & _). congruence.
      * destruct (search_by_text_cases be db (JinaCLIPEmbedding mt mi) q limit (x :: qe))
          as (hits & Hs & ->); [cbn; now rewrite Emt|discriminate|].
        destruct (printable "id" hits) eqn:Ep; split.
        -- discriminate.
        -- intros (_ & qe' & hits' & [= <-] & _ & Hs' & Hp'). congruence.
        -- intros [= <-]. split; [reflexivity|]. exists (x :: qe), hits.
           repeat split; auto; discriminate.
        -- intros [-> _]. reflexivity.
    + unfold search_by_text. cbn. rewrite Emt. cbn.
      split; [discriminate|]. intros (_ & qe' & hits & Hqe & _). discriminate.
  - intros e. destruct (mi img) as [qe|e0] eqn:Emi.
    + destruct qe as [|x qe].
      * unfold search_by_image. cbn. rewrite Emi. cbn.
        split; [discriminate|]. intros (_ & qe' & hits & [= <-] & Hne & _). congruence.
      * destruct (search_by_image_cases be db (JinaCLIPEmbedding mt mi) img limit qt (x :: qe))
          as (hits & Hs & ->); [cbn; now rewrite Emi|discriminate|].
        destruct (printable "product_name" hits) eqn:Ep; split.
        -- discriminate.
        -- intros (_ & qe' & hits' & [= <-] & _ & Hs' & Hp'). congruence.
        -- intros [= <-]. split; [reflexivity|]. exists (x :: qe), hits.
           repeat split; auto; discriminate.
        -- intros [-> _]. reflexivity.
    + unfold search_by_image. cbn. rewrite Emi. cbn.
      split; [discriminate|]. intros (_ & qe' & hits & Hqe & _). discriminate.
  - intros e. apply search_multimodal_raise.
Qed.

(** C7 fails as stated: with the store unreachable the three searches
    return the empty list, exactly what they return when the model is
    unreachable and no query embedding can be produced; no error reaches the
    caller. *)
Lemma store_failure_is_not_propagated :
  let _ : platform := Fixtures.exact in
  search_by_text Shop.store_down Fixtures.empty_db Shop.model "noodles" 30 = Ok [] /\
  search_by_image Shop.store_down Fixtures.empty_db Shop.model (RGB "") 30 "image" = Ok [] /\
  search_multimodal Shop.store_down Fixtures.empty_db Shop.model "noodles" (RGB "") 30 0.5
  = Ok [] /\
  search_by_text Shop.store Fixtures.empty_db Shop.model_down "noodles" 30 = Ok [] /\
  search_by_image Shop.store Fixtures.empty_db Shop.model_down (RGB "") 30 "image" = Ok [] /\
  search_multimodal Shop.store Fixtures.empty_db Shop.model_down "noodles" (RGB "") 30 0.5
  = Ok [].
Proof. repeat split; vm_compute; reflexivity. Qed.

(** An error that does reach the caller: the store answers a document
    without [id]; the text search builds its hit and then fails on the
    message. *)
Example text_search_fails_on_the_message :
  let _ : platform := Fixtures.exact in
  let nameless : dict := {[ "text_embedding" := VVec [1; 0]%float ]} in
  search_by_text (Fixtures.answering [nameless]) Fixtures.empty_db Shop.model "noodles" 30
  = Raise TypeError /\
  map (fun hit => (get hit "id", get hit "similarity_score"))
      (returned (vector_search (Fixtures.answering [nameless]) Fixtures.empty_db
                               [1; 0]%float 30 "text"))
  = [(VNone, VNum 1)].
Proof. split; vm_compute; reflexivity. Qed.

(** ** The dimension of the vectors *)

Lemma get_VVec (d : dict) f v : get d f = VVec v -> get_or_empty d f = VVec v.
Proof. unfold get, get_or_empty. destruct (d !! f); cbn; congruence. Qed.

(** C3, as the code has it: the search checks no dimension.  For a query
    vector of any length [vector_search] raises nothing; when the store
    answers (and no catalog field replaces a score) its candidates are all
    returned, none is lost: a candidate whose stored vector has another
    length than the query is among the hits, with the score [0.0]; and in
    the fusion a hit whose two stored vectors have different lengths gets as
    combined embedding the weighted sum over their common prefix: the longer
    vector is cut, nothing is rejected. *)
Theorem search_checks_no_dimension {py : platform} be db q limit qt :
  (exists hits, vector_search be db q limit qt = Ok hits) /\
  (forall docs,
     find_nearest be (vectors db) (vector_field_name qt) q limit = Ok docs ->
     no_score_field db ->
     let field := vector_field_name qt in
     exists hits,
       vector_search be db q limit qt = Ok hits /\
       Permutation hits (map (make_hit be db q field) docs) /\
       (forall d v,
          In d docs -> as_list (get d field) = Some v -> length v <> length q ->
          In (make_hit be db q field d) hits /\
          make_hit be db q field d !! "similarity_score" = Some (VNum 0))) /\
  (forall em text_query img alpha fused h i t,
     search_multimodal be db em text_query img limit alpha = Ok fused ->
     In h fused ->
     get h "image_embedding" = VVec i -> i <> [] ->
     get h "text_embedding" = VVec t -> t <> [] ->
     let n := Nat.min (length i) (length t) in
     h !! "combined_embedding" = Some (VVec (weighted alpha i t)) /\
     length (weighted alpha i t) = n /\
     weighted alpha i t = weighted alpha (take n i) (take n t)).
Proof.
  split; [apply vector_search_never_raises|]. split.
  - intros docs Hn Hdb field.
    destruct (vector_search_hits be db q limit qt docs Hn Hdb)
      as (hits & Hhits & Hperm & _).
    exists hits. split; [exact Hhits|]. split; [exact Hperm|].
    intros d v Hd Hv Hlen. split.
    + apply (Permutation_in _ (Permutation_sym Hperm)). now apply in_map.
    + rewrite make_hit_similarity_score by assumption. do 2 f_equal.
      apply stored_score_malformed. right. now rewrite Hv.
  - intros em text_query img alpha fused h i t Hs Hin Hi Hine Ht Htne n.
    destruct (multimodal_hit_origin _ _ _ _ _ _ _ _ _ Hs Hin)
      as (te & ie & f & qe & ds & d & c & _ & _ & _ & _ & _ & Hc & ->).
    unfold get in Hi, Ht. rewrite lookup_insert_ne in Hi, Ht by discriminate.
    apply get_VVec in Hi, Ht.
    assert (Hadd : add_combined alpha (make_hit be db qe f d)
                   = Ok (<["combined_embedding" := c]> (make_hit be db qe f d)))
      by (unfold add_combined; now rewrite Hc).
    destruct (add_combined_cases alpha [] _ _ Hadd) as (v & Ev & Hboth & _).
    assert (c = v) as ->.
    { apply (f_equal (fun m : dict => m !! "combined_embedding")) in Ev.
      rewrite !lookup_insert_eq in Ev. congruence. }
    rewrite (Hboth i t Hi Hine Ht Htne), lookup_insert_eq.
    split; [reflexivity|]. split; [apply weighted_length|].
    apply weighted_common_prefix.
Qed.

(** C3 fails as stated: a query of length [D - 1] against a stored vector of
    length [D] is answered with a hit (score [0.0]), not with an error, and
    the fusion step cuts a candidate's vectors of lengths [D] and [D - 1]
    down to [D - 1]. *)
Lemma wrong_dimension_is_accepted :
  let _ : platform := Fixtures.exact in
  let stored := Fixtures.embedding_doc "p1" (VVec (repeat 1%float D))
                                            (VVec (repeat 1%float (D - 1))) in
  let q := repeat 1%float (D - 1) in
  let answer := vector_search (Fixtures.answering [stored]) Fixtures.empty_db q 30 "text" in
  length q <> D /\
  is_ok answer = true /\
  map (fun hit => (get hit "id", get hit "similarity_score")) (returned answer)
  = [(VStr "p1", VNum 0)] /\
  (exists c,
     combined_embedding 0.5 stored = Ok (VVec c) /\ length c = (D - 1)%nat).
Proof.
  intros py stored q answer. split; [vm_compute; discriminate|].
  split; [vm_compute; reflexivity|]. split; [vm_compute; reflexivity|].
  exists (weighted 0.5 (repeat 1%float (D - 1)) (repeat 1%float D)).
  split; vm_compute; reflexivity.
Qed.

Lemma search_checks_no_dimension_witness :
  let _ : platform := Fixtures.exact in
  let stored := Fixtures.embedding_doc "p1" (VVec [1; 1; 1]%float) (VVec [1; 1]%float) in
  exists hits,
    vector_search (Fixtures.answering [stored]) Fixtures.empty_db [1; 1]%float 30 "text"
    = Ok hits /\
    In (make_hit (Fixtures.answering [stored]) Fixtures.empty_db [1; 1]%float
                 "text_embedding" stored) hits /\
    make_hit (Fixtures.answering [stored]) Fixtures.empty_db [1; 1]%float
             "text_embedding" stored !! "similarity_score" = Some (VNum 0).
Proof.
  intros py stored.
  destruct (search_checks_no_dimension (Fixtures.answering [stored]) Fixtures.empty_db
              [1; 1]%float 30 "text") as (_ & Hdocs & _).
  destruct (Hdocs [stored] eq_refl empty_db_no_score_field) as (hits & Hs & _ & Hd).
  exists hits. split; [exact Hs|].
  apply (Hd stored [1; 1; 1]%float).
  - now left.
  - reflexivity.
  - discriminate.
Defined.

(** * Further facts *)

(** ** What a run of the pipeline does to the two collections *)

Lemma commit_sets be k doc r r' o :
  is_embedding_document k doc ->
  commit be k doc r = (r', o) ->
  sets_embedding_documents (trace r) ->
  sets_embedding_documents (trace r') /\
  stored_count r' + flips (trace r) = stored_count r + flips (trace r').
Proof.
  intros Hdoc Hc Hs.
  apply commit_cases in Hc
    as [[-> [e ->]]|[(e & -> & Ht & _ & Hn & _)|(-> & Ht & _ & Hn & _)]].
  - auto.
  - rewrite Ht, Hn. unfold sets_embedding_documents, flips.
    rewrite List.filter_app, length_app. cbn. split; [|lia].
    apply Forall_app. split; [assumption|]. now repeat constructor.
  - rewrite Ht, Hn. unfold sets_embedding_documents, flips.
    rewrite List.filter_app, length_app. cbn. split; [|lia].
    apply Forall_app. split; [assumption|]. now repeat constructor.
Qed.

(** The writes of the loop: embedding documents under their own ids, except
    that the last write may be the document of a product without id, under
    a key that was free; the loop then ends with an exception. *)
Lemma index_loop_sets be em db0 products_data :
  forall r r' o,
    index_loop be em products_data r = (r', o) ->
    sets_embedding_documents (trace r) ->
    db_of r = replay (trace r) db0 ->
    stored_count r' + flips (trace r) = stored_count r + flips (trace r') /\
    (sets_embedding_documents (trace r') \/
     exists t k doc e,
       trace r' = (t ++ [EvSet k doc])%list /\ sets_embedding_documents t /\
       is_stray_document doc /\ vectors (replay t db0) !! k = None /\
       o = Raise e).
Proof.
  induction products_data as [|product rest IH]; intros r r' o; cbn [index_loop].
  - intros [= <- <-]. auto.
  - rewrite index_one_verdict.
    destruct (verdict_of be em product) as [|e|k doc|doc] eqn:Ev.
    + apply IH.
    + intros [= <- <-]. auto.
    + apply verdict_Write in Ev as [Hdoc _].
      destruct (commit be k doc r) as [r1 [[]|e]] eqn:Ec; intros Hl Hs Hdb;
        destruct (commit_sets _ _ _ _ _ _ Hdoc Ec Hs) as [Hs1 Hn1].
      * assert (Hdb1 : db_of r1 = replay (trace r1) db0).
        { apply commit_cases in Ec
            as [[_ [e He]]|[(e & He & _)|(_ & Ht & Hd & _)]]; try discriminate.
          rewrite Hd, Ht, replay_app, <- Hdb. reflexivity. }
        destruct (IH _ _ _ Hl Hs1 Hdb1) as [Hn2 Hs2]. split; [lia|assumption].
      * injection Hl as <- <-. auto.
    + apply verdict_Stray in Ev as [Hdoc _].
      destruct (commit_stray be doc r) as [r1 o1] eqn:Ec.
      apply commit_stray_cases in Ec as (e & -> & [->|(k & Hk & Ht & _ & Hn)]).
      * intros [= <- <-]. auto.
      * intros [= <- <-] Hs Hdb. split.
        -- rewrite Ht, Hn. unfold flips. rewrite List.filter_app, length_app. cbn. lia.
        -- right. exists (trace r), k, doc, e. rewrite <- Hdb. auto.
Qed.

(** The run of [store_products]: its final state in terms of its trace. *)
Lemma store_products_run be em db :
  let r := fst (store_products be em db) in
  db_of r = replay (trace r) db /\
  stored_count r = flips (trace r) /\
  (sets_embedding_documents (trace r) \/
   exists t k doc,
     trace r = (t ++ [EvSet k doc])%list /\ sets_embedding_documents t /\
     is_stray_document doc /\ vectors (replay t db) !! k = None /\
     snd (store_products be em db) = false).
Proof.
  cbv zeta. unfold store_products.
  destruct (query_raises be); [repeat split; left; constructor|].
  destruct (index_loop _ _ _ _) as [r o] eqn:El.
  pose proof (index_loop_trace be em db _ _ _ _ El (pairs_nil) eq_refl) as [_ Hdb].
  pose proof (index_loop_sets be em db _ _ _ _ El (List.Forall_nil _) eq_refl)
    as [Hn Hs].
  cbn in Hn.
  destruct Hs as [Hs|(t & k & doc & e & Ht & Hs & Hdoc & Hk & ->)].
  - destruct o; cbn; (split; [exact Hdb|]); (split; [lia|]); now left.
  - cbn. split; [exact Hdb|]. split; [lia|]. right. exists t, k, doc. auto.
Qed.

Lemma same_or_done_refl coll : Forall2 same_or_done coll coll.
Proof. induction coll; constructor; auto. split; auto. Qed.

Lemma mark_done_idem d : mark_done (mark_done d) = mark_done d.
Proof. unfold mark_done. apply insert_insert_eq. Qed.

Lemma same_or_done_update k before after :
  Forall2 same_or_done before after ->
  Forall2 same_or_done before (update_doc k mark_done after).
Proof.
  induction 1 as [|[kb db] [ka da] before after [Hk Hd] Hrest IH]; cbn;
    [constructor|].
  cbn in Hk, Hd. subst ka.
  destruct (String.eqb k kb).
  - constructor; [|assumption]. split; [reflexivity|]. cbn.
    destruct Hd as [-> | ->]; [now right|]. right. apply mark_done_idem.
  - constructor; [|assumption]. split; auto.
Qed.

Lemma replay_catalog t :
  forall db, Forall2 same_or_done (products db) (products (replay t db)).
Proof.
  induction t as [|ev t IH] using rev_ind; intros db.
  - apply same_or_done_refl.
  - rewrite replay_app. cbn. destruct ev as [k doc|k]; cbn.
    + apply IH.
    + apply same_or_done_update, IH.
Qed.

Lemma flipped_documents_same coll : flipped_documents coll coll = 0.
Proof.
  unfold flipped_documents. induction coll as [|[k d] coll IH]; [reflexivity|].
  cbn. unfold flipped at 1. cbn. destruct (is_pending d); cbn; exact IH.
Qed.

Lemma flipped_documents_cons kd kd' coll coll' :
  flipped_documents (kd :: coll) (kd' :: coll')
  = (if flipped kd kd' then 1 else 0) + flipped_documents coll coll'.
Proof. unfold flipped_documents. cbn. now destruct (flipped kd kd'). Qed.

(** In a catalog with one document per key, each filed under its own id,
    the loop counts the documents it takes from Pending to Done, whether it
    reaches its end or not. *)
Lemma index_loop_counts be em todo :
  forall done r r' o,
    products (db_of r) = (done ++ todo)%list ->
    NoDup (map fst (done ++ todo)) -> well_keyed todo ->
    index_loop be em (pending_of todo) r = (r', o) ->
    exists todo',
      products (db_of r') = (done ++ todo')%list /\
      stored_count r' = stored_count r + flipped_documents todo todo'.
Proof.
  induction todo as [|[k d] todo IH]; intros done r r' o Hprod Hnd Hwk.
  - cbn. intros [= <- <-]. exists []. split; [assumption|]. cbn. lia.
  - assert (Hk : ~ In k (map fst done)).
    { rewrite map_app in Hnd. apply NoDup_app in Hnd as (_ & Hdisj & _).
      intros Hin. apply list_elem_of_In in Hin. apply (Hdisj k Hin).
      apply list_elem_of_In. now left. }
    inversion Hwk as [|? ? Hid Hwk']; subst. cbn [fst snd] in Hid.
    assert (Hstop : forall r0 : run,
      products (db_of r0) = (done ++ (k, d) :: todo)%list ->
      exists todo',
        products (db_of r0) = (done ++ todo')%list /\
        stored_count r0 = stored_count r0 + flipped_documents ((k, d) :: todo) todo').
    { intros r0 Hp0. exists ((k, d) :: todo). split; [assumption|].
      rewrite flipped_documents_same. lia. }
    assert (Hkeep : forall r0 : run,
      products (db_of r0) = (done ++ (k, d) :: todo)%list ->
      stored_count r0 = stored_count r ->
      index_loop be em (pending_of todo) r0 = (r', o) ->
      exists todo',
        products (db_of r') = (done ++ todo')%list /\
        stored_count r' = stored_count r + flipped_documents ((k, d) :: todo) todo').
    { intros r0 Hp0 Hn0 Hl.
      destruct (IH (done ++ [(k, d)])%list r0 r' o) as (todo' & Hp' & Hn'); auto.
      { now rewrite <- app_assoc. }
      { now rewrite <- app_assoc. }
      exists ((k, d) :: todo'). split; [now rewrite <- app_assoc in Hp'|].
      rewrite flipped_documents_cons. unfold flipped. cbn [snd].
      destruct (is_pending d); cbn; lia. }
    unfold pending_of. cbn [List.filter snd].
    destruct (is_pending d) eqn:Epend; cbn [map snd]; fold (pending_of todo).
    2:{ now apply Hkeep. }
    cbn [index_loop]. rewrite index_one_verdict.
    destruct (verdict_of be em d) as [|e|k' doc|doc] eqn:Ev;
      [| | |apply verdict_Stray in Ev as [_ Hnone]; congruence].
    + now apply Hkeep.
    + intros [= <- <-]. now apply Hstop.
    + pose proof (verdict_Write _ _ _ _ _ Ev) as [_ Hid'].
      assert (k' = k) as -> by congruence.
      destruct (commit be k doc r) as [r1 o1] eqn:Ec.
      apply commit_cases in Ec
        as [[-> [e ->]]|[(e & -> & _ & Hd & Hn1 & _)|(-> & _ & Hd & Hn1 & _)]].
      * intros [= <- <-]. now apply Hstop.
      * intros [= <- <-].
        destruct (Hstop r1) as (todo' & Hp' & Hn').
        { rewrite Hd. exact Hprod. }
        exists todo'. split; [assumption|]. lia.
      * intros Hl.
        assert (Hp1 : products (db_of r1) = ((done ++ [(k, mark_done d)]) ++ todo)%list).
        { rewrite Hd. cbn. rewrite Hprod, update_doc_skip by assumption.
          cbn. rewrite String.eqb_refl. now rewrite <- app_assoc. }
        destruct (IH (done ++ [(k, mark_done d)])%list r1 r' o) as (todo' & Hp' & Hn');
          auto.
        { rewrite <- app_assoc. cbn. rewrite map_app in *. exact Hnd. }
        exists ((k, mark_done d) :: todo'). split; [now rewrite <- app_assoc in Hp'|].
        rewrite flipped_documents_cons. unfold flipped. cbn [snd].
        rewrite Epend, mark_done_not_pending. cbn. lia.
Qed.

(** X1: a run, whether it ends with [True] or [False], keeps every catalog
    document in its place under its key and changes nothing in it except,
    for some, the field [is_emb], set to [D]; a document that is Done stays
    Done; the count it reports is the number of flips it has asked for and
    got, and, in a catalog with one document per key, each filed under its
    own id, the number of documents that were Pending before the run and are
    not any more. *)
Theorem run_only_flips_catalog be em db :
  let r := fst (store_products be em db) in
  Forall2 same_or_done (products db) (products (db_of r)) /\
  (forall k, is_done k (products db) -> is_done k (products (db_of r))) /\
  stored_count r = flips (trace r) /\
  (NoDup (map fst (products db)) -> well_keyed (products db) ->
   stored_count r = flipped_documents (products db) (products (db_of r))).
Proof.
  cbv zeta. destruct (store_products_run be em db) as (Hdb & Hn & _).
  assert (H2 : Forall2 same_or_done (products db)
                 (products (db_of (fst (store_products be em db))))).
  { rewrite Hdb. apply replay_catalog. }
  split; [exact H2|]. split; [|split; [exact Hn|]].
  - revert H2. generalize (products (db_of (fst (store_products be em db)))).
    intros after H2 k (d & Hl & Hd).
    induction H2 as [|[kb b] [ka a] before after [Hk Ha] _ IH]; [discriminate|].
    cbn in Hk, Ha, Hl |- *. subst ka. unfold is_done. cbn.
    destruct (String.eqb k kb).
    + injection Hl as ->. exists a. split; [reflexivity|].
      destruct Ha as [-> | ->]; [assumption|].
      unfold mark_done. apply lookup_insert_eq.
    + apply IH. assumption.
  - intros Hnd Hwk. clear Hdb Hn H2. unfold store_products.
    destruct (query_raises be); cbn [fst db_of stored_count].
    { now rewrite flipped_documents_same. }
    destruct (index_loop _ _ _ _) as [r o] eqn:El.
    destruct (index_loop_counts be em (products db) []
                {| db_of := db; trace := []; stored_count := 0 |} r o eq_refl Hnd Hwk El)
      as (todo' & Hp & Hcount).
    cbn in Hp, Hcount. destruct o; cbn [fst]; now rewrite Hp.
Qed.

(** When two pending products share an id the count is larger than the
    number of documents that change: both updates go to the document filed
    under that id. *)
Example count_with_shared_id :
  let twin := Catalog.product_doc "p1" "udon" "http://shop/twin.png" in
  let sold : dict := {[ "id" := VStr "p1"; "is_emb" := VStr "D" ]} in
  let db := {| products := [("p1", sold); ("a", Catalog.p1); ("b", twin)];
               vectors := ∅ |} in
  let res := store_products (Catalog.unreachable "") Catalog.model db in
  snd res = true /\ stored_count (fst res) = 2 /\
  flipped_documents (products db) (products (db_of (fst res))) = 0.
Proof. repeat split; vm_compute; reflexivity. Qed.

Lemma replay_vectors t :
  sets_embedding_documents t ->
  forall db k,
    (forall d, vectors (replay t db) !! k = Some d ->
               vectors db !! k = Some d \/ is_embedding_document k d) /\
    (is_Some (vectors db !! k) -> is_Some (vectors (replay t db) !! k)).
Proof.
  induction t as [|ev t IH] using rev_ind; intros Hs db k.
  - cbn. auto.
  - apply Forall_app in Hs as [Hs Hev]. inversion Hev as [|? ? Hdoc _]; subst.
    rewrite replay_app. cbn. destruct (IH Hs db k) as [IH1 IH2].
    destruct ev as [k' doc|k']; cbn; [|auto].
    destruct (decide (k' = k)) as [->|Hne].
    + rewrite lookup_insert_eq. split; [|eauto]. intros d [= <-]. auto.
    + rewrite lookup_insert_ne by assumption. auto.
Qed.

(** X2: a run never deletes a vector document.  A document it writes or
    replaces is an embedding document (id, text vector, image vector, both
    non-empty) filed under its own id, with one exception: for a product
    whose id is [None] the document goes under an automatic id, a key that
    was free, and the run then ends with [False]. *)
Theorem run_only_adds_embedding_documents be em db k :
  let r := fst (store_products be em db) in
  (forall d, vectors (db_of r) !! k = Some d ->
     vectors db !! k = Some d \/ is_embedding_document k d \/
     (is_stray_document d /\ vectors db !! k = None /\
      snd (store_products be em db) = false)) /\
  (is_Some (vectors db !! k) -> is_Some (vectors (db_of r) !! k)).
Proof.
  cbv zeta. destruct (store_products_run be em db) as (Hdb & _ & Hs).
  rewrite Hdb. destruct Hs as [Hs|(t & k0 & doc & -> & Hs & Hdoc & Hk0 & Hfalse)].
  - destruct (replay_vectors _ Hs db k) as [Hold Hkeep]. split; [|exact Hkeep].
    intros d Hd. destruct (Hold d Hd); auto.
  - rewrite replay_app. cbn.
    destruct (replay_vectors _ Hs db k) as [Hold Hkeep].
    destruct (decide (k0 = k)) as [->|Hne].
    + rewrite lookup_insert_eq. split; [|eauto].
      intros d [= <-]. right. right. split; [assumption|]. split; [|assumption].
      destruct (vectors db !! k) eqn:E; [|reflexivity].
      destruct Hkeep as [d' Hd']; [eauto|]. congruence.
    + rewrite lookup_insert_ne by assumption. split; [|exact Hkeep].
      intros d Hd. destruct (Hold d Hd); auto.
Qed.

(** The write for a product without id, run on a small catalog: the
    document is filed under an automatic id and keeps [None] as its id; the
    product stays Pending and the run ends with [False]. *)
Example product_without_id_leaves_stray_document :
  let anonymous : dict :=
    {[ "id" := VNone; "product_name" := VStr "soba";
       "image_url" := VStr "http://shop/soba.png"; "is_emb" := VStr "R" ]} in
  let db := {| products := [("x", anonymous)]; vectors := ∅ |} in
  let res := store_products (Catalog.unreachable "") Catalog.model db in
  snd res = false /\ stored_count (fst res) = 0 /\
  map (fun kd => (fst kd, get (snd kd) "id")) (map_to_list (vectors (db_of (fst res))))
  = [(auto_id [], VNone)] /\
  pending_products (db_of (fst res)) = [anonymous].
Proof. repeat split; vm_compute; reflexivity. Qed.

(** ** A run that reaches its end *)

Lemma index_loop_settles be em todo :
  forall done r r',
    products (db_of r) = (done ++ todo)%list ->
    NoDup (map fst (done ++ todo)) -> well_keyed todo ->
    index_loop be em (pending_of todo) r = (r', Ok tt) ->
    products (db_of r') = (done ++ map (settle be em) todo)%list /\
    vectors (db_of r') = fold_left (file_embedding be em) todo (vectors (db_of r)) /\
    stored_count r' = stored_count r + length (List.filter (stores be em) todo).
Proof.
  induction todo as [|[k d] todo IH]; intros done r r' Hprod Hnd Hwk.
  - cbn. intros [= <-]. rewrite app_nil_r in *. auto.
  - assert (Hk : ~ In k (map fst done)).
    { rewrite map_app in Hnd. apply NoDup_app in Hnd as (_ & Hdisj & _).
      intros Hin. apply list_elem_of_In in Hin. apply (Hdisj k Hin).
      apply list_elem_of_In. now left. }
    inversion Hwk as [|? ? Hid Hwk']; subst. cbn [fst snd] in Hid.
    assert (Hkeep : forall r0,
      products (db_of r0) = (done ++ (k, d) :: todo)%list ->
      index_loop be em (pending_of todo) r0 = (r', Ok tt) ->
      products (db_of r') = (done ++ (k, d) :: map (settle be em) todo)%list /\
      vectors (db_of r') = fold_left (file_embedding be em) todo (vectors (db_of r0)) /\
      stored_count r' = stored_count r0 + length (List.filter (stores be em) todo)).
    { intros r0 Hp0 Hl.
      destruct (IH (done ++ [(k, d)])%list r0 r') as (Hp & Hv & Hn); auto.
      { now rewrite <- app_assoc. }
      { now rewrite <- app_assoc. }
      rewrite <- app_assoc in Hp. auto. }
    cbn [map fold_left List.filter]. unfold pending_of. cbn [List.filter snd].
    fold (pending_of todo).
    destruct (is_pending d) eqn:Epend; cbn [map snd].
    2:{ replace (settle be em (k, d)) with (k, d)
          by (unfold settle; cbn; now rewrite Epend).
        replace (file_embedding be em (vectors (db_of r)) (k, d)) with (vectors (db_of r))
          by (unfold file_embedding; cbn; now rewrite Epend).
        replace (stores be em (k, d)) with false
          by (unfold stores; cbn; now rewrite Epend).
        now apply Hkeep. }
    cbn [index_loop]. rewrite index_one_verdict.
    destruct (verdict_of be em d) as [|e|k' doc|doc] eqn:Ev;
      [| | |apply verdict_Stray in Ev as [_ Hnone]; congruence].
    + replace (settle be em (k, d)) with (k, d)
        by (unfold settle; cbn; now rewrite Epend, Ev).
      replace (file_embedding be em (vectors (db_of r)) (k, d)) with (vectors (db_of r))
        by (unfold file_embedding; cbn; now rewrite Epend, Ev).
      replace (stores be em (k, d)) with false
        by (unfold stores; cbn; now rewrite Epend, Ev).
      now apply Hkeep.
    + discriminate.
    + pose proof (verdict_Write _ _ _ _ _ Ev) as [_ Hid'].
      assert (k' = k) as -> by congruence.
      replace (settle be em (k, d)) with (k, mark_done d)
        by (unfold settle; cbn; now rewrite Epend, Ev).
      replace (file_embedding be em (vectors (db_of r)) (k, d))
        with (<[k := doc]> (vectors (db_of r)))
        by (unfold file_embedding; cbn; now rewrite Epend, Ev).
      replace (stores be em (k, d)) with true
        by (unfold stores; cbn; now rewrite Epend, Ev).
      destruct (commit be k doc r) as [r1 o1] eqn:Ec.
      apply commit_cases in Ec
        as [[-> [e ->]]|[(e & -> & _)|(-> & _ & Hd & Hn1 & _)]];
        [discriminate..|].
      intros Hl.
      assert (Hp1 : products (db_of r1) = ((done ++ [(k, mark_done d)]) ++ todo)%list).
      { rewrite Hd. cbn. rewrite Hprod, update_doc_skip by assumption.
        cbn. rewrite String.eqb_refl. now rewrite <- app_assoc. }
      destruct (IH (done ++ [(k, mark_done d)])%list r1 r') as (Hp & Hv & Hn); auto.
      { rewrite <- app_assoc. cbn. rewrite map_app in *. exact Hnd. }
      rewrite <- app_assoc in Hp. rewrite Hp, Hv, Hn, Hn1, Hd. cbn.
      split; [reflexivity|]. split; [reflexivity|]. lia.
Qed.

(** X3: when [store_products] returns [True] on a catalog with one document per
    key, each filed under its own id, the catalog it leaves is the catalog it
    found with exactly the pending products that have a name, an image and
    two non-empty embeddings marked Done; the vector collection has gained
    exactly their embedding documents; and the count it reports is their
    number. *)
Theorem successful_run_settles_catalog be em db r :
  NoDup (map fst (products db)) -> well_keyed (products db) ->
  store_products be em db = (r, true) ->
  products (db_of r) = map (settle be em) (products db) /\
  vectors (db_of r) = fold_left (file_embedding be em) (products db) (vectors db) /\
  stored_count r = length (List.filter (stores be em) (products db)).
Proof.
  intros Hnd Hwk. unfold store_products.
  destruct (query_raises be); [discriminate|].
  destruct (index_loop _ _ _ _) as [r' [[]|e]] eqn:El; [|discriminate].
  intros [= <-].
  apply (index_loop_settles be em (products db) []) in El; auto.
Qed.

Lemma successful_run_settles_catalog_witness :
  let res := store_products (Catalog.unreachable "") Catalog.model Catalog.two_pending in
  snd res = true /\
  stored_count (fst res)
  = length (List.filter (stores (Catalog.unreachable "") Catalog.model)
                        (products Catalog.two_pending)) /\
  stored_count (fst res) = 2.
Proof.
  intros res.
  assert (Ht : snd res = true) by (vm_compute; reflexivity).
  assert (E : store_products (Catalog.unreachable "") Catalog.model Catalog.two_pending
              = (fst res, true)).
  { rewrite <- Ht. apply surjective_pairing. }
  split; [exact Ht|].
  destruct (successful_run_settles_catalog (Catalog.unreachable "") Catalog.model
              Catalog.two_pending (fst res)) as (_ & _ & Hn).
  - compute_done.
  - repeat constructor.
  - exact E.
  - split; [exact Hn|]. vm_compute. reflexivity.
Defined.

(** ** The text embedding of [JinaCLIPEmbedding] in the pipeline *)

(** X4: with [JinaCLIPEmbedding] a failure of the model on the text of a product
    is no exception: the iteration goes on to fetch the image.  When the
    image is fetched the product is skipped, nothing is written and the loop
    continues; when the fetch raises too, the exception leaves the loop. *)
Theorem model_failure_on_text_then_image be mt mi product name r :
  product !! "product_name" = Some name ->
  (exists e, mt name "retrieval.query" = Raise e) ->
  let em := JinaCLIPEmbedding mt mi in
  let image_url := default (VStr "") (product !! "image_url") in
  (forall img, fetch_image be image_url = Ok img ->
               index_one be em product r = (r, Ok tt)) /\
  (forall e, fetch_image be image_url = Raise e ->
             index_one be em product r = (r, Raise e)).
Proof.
  intros Hname [e0 He0] em image_url. subst em image_url.
  unfold index_one, subscript. rewrite Hname. cbn. rewrite He0. cbn.
  split.
  - intros img ->. cbn. now destruct (mi img).
  - intros e ->. reflexivity.
Qed.

Lemma model_failure_on_text_then_image_witness :
  let em := JinaCLIPEmbedding (fun _ _ => Raise ProviderError)
                              (fun _ => Ok [0; 1]%float) in
  let r := {| db_of := Catalog.two_pending; trace := []; stored_count := 0 |} in
  index_one (Catalog.unreachable "http://down/p1.png") em Catalog.p2 r = (r, Ok tt) /\
  index_one (Catalog.unreachable "http://down/p1.png") em Catalog.p1 r
  = (r, Raise NetworkError).
Proof.
  intros em r.
  destruct (model_failure_on_text_then_image
              (Catalog.unreachable "http://down/p1.png")
              (fun _ _ => Raise ProviderError) (fun _ => Ok [0; 1]%float)
              Catalog.p2 (VStr "ramen") r) as [H _];
    [reflexivity | exists ProviderError; reflexivity |].
  destruct (model_failure_on_text_then_image
              (Catalog.unreachable "http://down/p1.png")
              (fun _ _ => Raise ProviderError) (fun _ => Ok [0; 1]%float)
              Catalog.p1 (VStr "noodles") r) as [_ H'];
    [reflexivity | exists ProviderError; reflexivity |].
  split.
  - apply (H (RGB "http://shop/p2.png")). reflexivity.
  - apply H'. reflexivity.
Defined.

(** ** The join of a hit with the catalog *)

(** X5: the catalog document of a candidate is joined over the computed fields:
    every field of the document is on the hit with the catalog's value, the
    other fields are the id, the score and the two stored vectors.  When the
    candidate has no id, the lookup raises, or the catalog has no such
    document, the hit is still made, of these four fields alone. *)
Theorem hit_joins_catalog_fields {py : platform} be db q field doc_data k :
  get doc_data "id" = VStr k ->
  let hit := make_hit be db q field doc_data in
  (k <> "" -> get_raises be k = None ->
   forall pd, lookup_doc k (products db) = Some pd ->
     forall f, hit !! f = match pd !! f with
                          | Some v => Some v
                          | None => bare_hit q field doc_data !! f
                          end) /\
  (k = "" \/ get_raises be k <> None \/ lookup_doc k (products db) = None ->
   hit = bare_hit q field doc_data).
Proof.
  intros Hid hit. subst hit. unfold make_hit, bare_hit, product_get.
  fold (stored_score q field doc_data). rewrite Hid. cbn [truthy document].
  split.
  - intros Hk Hget pd Hpd f.
    apply String.eqb_neq in Hk. rewrite Hk. cbn. rewrite Hget, Hpd.
    rewrite lookup_union.
    destruct (pd !! f);
      match goal with |- context [?m !! f] => destruct (m !! f) end; reflexivity.
  - assert (Hbare : forall m : dict, ∅ ∪ m = m) by (intros m; apply (left_id_L ∅ (∪))).
    intros [-> | [Hget | Hnone]].
    + cbn. apply Hbare.
    + destruct (negb (k =? "")); [|apply Hbare]. cbn.
      destruct (get_raises be k); [|congruence]. apply Hbare.
    + destruct (negb (k =? "")); [|apply Hbare]. cbn.
      destruct (get_raises be k); [apply Hbare|].
      rewrite Hnone. apply Hbare.
Qed.

Lemma hit_joins_catalog_fields_witness :
  let _ : platform := Fixtures.exact in
  let pd : dict := {[ "id" := VStr "A"; "product_name" := VStr "noodles" ]} in
  let db := {| products := [("A", pd)]; vectors := ∅ |} in
  let hit := make_hit Shop.store db [1; 0]%float "text_embedding" Shop.A in
  hit !! "product_name" = Some (VStr "noodles") /\
  hit !! "similarity_score" = Some (VNum 3).
Proof.
  intros py pd db hit.
  destruct (hit_joins_catalog_fields Shop.store db [1; 0]%float "text_embedding"
              Shop.A "A") as [Hj _]; [vm_compute; reflexivity|].
  assert (Hf : forall f, hit !! f = match pd !! f with
                                    | Some v => Some v
                                    | None => bare_hit [1; 0]%float "text_embedding"
                                                       Shop.A !! f
                                    end).
  { apply Hj; [discriminate | reflexivity | reflexivity]. }
  split; rewrite Hf; vm_compute; reflexivity.
Defined.

Lemma make_hit_other_fields {py : platform} be db q1 f1 q2 f2 doc_data f :
  f <> "similarity_score" ->
  make_hit be db q1 f1 doc_data !! f = make_hit be db q2 f2 doc_data !! f.
Proof.
  intros Hf. unfold make_hit. rewrite !lookup_union.
  destruct (decide (f = "id")) as [->|Hid].
  { now rewrite !lookup_insert_eq. }
  rewrite !(lookup_insert_ne _ "id") by congruence.
  rewrite !(lookup_insert_ne _ "similarity_score") by congruence.
  reflexivity.
Qed.

(** X6: the same stored candidate gets the same combined embedding, hence the
    same fused score, whether the text search or the image search retrieved
    it: the merge order decides which hit is kept, not how it is scored. *)
Theorem fused_score_independent_of_retrieval {py : platform}
    be db q1 f1 q2 f2 doc_data alpha qc :
  combined_embedding alpha (make_hit be db q1 f1 doc_data)
  = combined_embedding alpha (make_hit be db q2 f2 doc_data) /\
  fused_score_of_hit alpha qc (make_hit be db q1 f1 doc_data)
  = fused_score_of_hit alpha qc (make_hit be db q2 f2 doc_data).
Proof.
  assert (Hc : combined_embedding alpha (make_hit be db q1 f1 doc_data)
               = combined_embedding alpha (make_hit be db q2 f2 doc_data)).
  { unfold combined_embedding, get_or_empty.
    rewrite (make_hit_other_fields be db q1 f1 q2 f2 doc_data "text_embedding")
      by discriminate.
    rewrite (make_hit_other_fields be db q1 f1 q2 f2 doc_data "image_embedding")
      by discriminate.
    reflexivity. }
  split; [exact Hc|].
  unfold fused_score_of_hit, add_combined. rewrite Hc.
  destruct (combined_embedding alpha (make_hit be db q2 f2 doc_data)); [|reflexivity].
  cbn. unfold fused_score, get_or_empty. now rewrite !lookup_insert_eq.
Qed.

(** ** Symmetry of the two similarity measures *)

Lemma SFmul_comm x y : SFmul prec emax x y = SFmul prec emax y x.
Proof.
  destruct x as [sx|sx| |sx mx ex], y as [sy|sy| |sy my ey]; cbn;
    rewrite ?(xorb_comm sx sy); try reflexivity.
  now rewrite (Pos.mul_comm mx my), (Z.add_comm ex ey).
Qed.

Lemma float_mul_comm x y : PrimFloat.mul x y = PrimFloat.mul y x.
Proof.
  apply Prim2SF_inj. rewrite !mul_spec. apply SFmul_comm.
Qed.

Lemma products_comm a :
  forall b,
    map (fun p : float * float => PrimFloat.mul (fst p) (snd p)) (zip a b)
    = map (fun p : float * float => PrimFloat.mul (fst p) (snd p)) (zip b a).
Proof.
  induction a as [|x a IH]; intros [|y b]; cbn; try reflexivity.
  now rewrite IH, float_mul_comm.
Qed.

(** X7: both similarity measures are symmetric as computed in binary64: the dot
    product score (with its [0.0] on vectors of different lengths) and the
    cosine similarity (with its 0 on a zero norm, and its error). *)
Theorem similarity_is_symmetric {py : platform} a b :
  calculate_dot_product_score a b = calculate_dot_product_score b a /\
  cosine_similarity a b = cosine_similarity b a.
Proof.
  split.
  - unfold calculate_dot_product_score, np_dot.
    rewrite (Nat.eqb_sym (length a)), (products_comm a b). reflexivity.
  - unfold cosine_similarity. rewrite (products_comm a b).
    rewrite (andb_comm (negb (is_zero (float_pow_half (fsum (map _ a)))))).
    rewrite (float_mul_comm (float_pow_half (fsum (map _ a)))). reflexivity.
Qed.

(** ** The size of a multimodal answer *)

Lemma filter_length_perm {A} (P : A -> bool) l l' :
  Permutation l l' -> length (List.filter P l) = length (List.filter P l').
Proof.
  induction 1 as [|x l l' _ IH|x y l|l l' l'' _ IH1 _ IH2]; cbn.
  - reflexivity.
  - destruct (P x); cbn; congruence.
  - destruct (P x), (P y); reflexivity.
  - congruence.
Qed.

Lemma filter_take_length {A} (P : A -> bool) n (l : list A) :
  length (List.filter P (take n l)) <= length (List.filter P l).
Proof.
  revert l. induction n as [|n IH]; intros [|x l]; cbn; try lia.
  specialize (IH l). destruct (P x); cbn; lia.
Qed.

Lemma filter_slice_to_length {A} (P : A -> bool) (l : list A) n :
  length (List.filter P (slice_to l n)) <= length (List.filter P l).
Proof. unfold slice_to. destruct (0 <=? n)%Z; apply filter_take_length. Qed.

Lemma slice_to_length {A} (l : list A) n :
  (0 <= n)%Z -> length (slice_to l n) <= Z.to_nat n.
Proof.
  intros Hn. unfold slice_to. apply Z.leb_le in Hn. rewrite Hn.
  rewrite length_take. lia.
Qed.

Lemma add_combined_has_id alpha s l r :
  mapM (add_combined alpha) l = Ok r ->
  length (List.filter (has_id s) r) = length (List.filter (has_id s) l).
Proof.
  intros H. apply mapM_Ok in H. induction H as [|m c l r Hmc _ IH]; [reflexivity|].
  unfold add_combined in Hmc.
  destruct (combined_embedding alpha m) as [v|]; [|discriminate].
  cbn in Hmc. injection Hmc as <-. cbn [List.filter].
  replace (has_id s (<["combined_embedding" := v]> m)) with (has_id s m).
  - destruct (has_id s m); cbn; congruence.
  - unfold has_id, get. now rewrite lookup_insert_ne by discriminate.
Qed.

(** X8: a multimodal answer holds each product at most once (one hit per
    non-empty id), and with a limit that is not negative it holds at most
    [limit] hits, although up to [2 * limit] candidates were retrieved. *)
Theorem multimodal_answer_is_deduplicated {py : platform}
    be db em q img limit alpha hits :
  search_multimodal be db em q img limit alpha = Ok hits ->
  (forall s, s <> "" -> length (List.filter (has_id s) hits) <= 1) /\
  ((0 <= limit)%Z -> length hits <= Z.to_nat limit).
Proof.
  intros Hs.
  apply search_multimodal_steps in Hs as [->|(te & ie & _ & _ & _ & _ & St)].
  { split; intros; cbn; lia. }
  apply fusion_candidates in St
    as (tr & ir & mg & cs & rk & _ & _ & Hmg & Hcs & -> & Hperm & _).
  split.
  - intros s Hne.
    etransitivity; [apply filter_slice_to_length|].
    rewrite (filter_length_perm _ _ _ Hperm).
    rewrite (add_combined_has_id _ _ _ _ Hcs).
    unfold merge_results in Hmg.
    destruct (merge_into [] (tr ++ ir)) as [res|] eqn:E; [|discriminate].
    cbn in Hmg. injection Hmg as <-.
    rewrite (merge_into_first_occurrence s _ Hne _ _ E (List.Forall_nil _)).
    cbn. destruct (List.find _ _); cbn; lia.
  - apply slice_to_length.
Qed.

Lemma multimodal_answer_is_deduplicated_witness :
  let _ : platform := Fixtures.exact in
  let hits := returned (search_multimodal Shop.store Fixtures.empty_db Shop.model
                                          "noodles" (RGB "") 1 0) in
  search_multimodal Shop.store Fixtures.empty_db Shop.model "noodles" (RGB "") 1 0
  = Ok hits /\
  length hits <= 1 /\ length (List.filter (has_id "A") hits) <= 1.
Proof.
  intros py hits.
  assert (E : search_multimodal Shop.store Fixtures.empty_db Shop.model
                "noodles" (RGB "") 1 0 = Ok hits)
    by (apply Ok_returned; vm_compute; reflexivity).
  split; [exact E|].
  destruct (multimodal_answer_is_deduplicated _ _ _ _ _ _ _ _ E) as [Hid Hlen].
  split; [apply Hlen; lia | apply Hid; discriminate].
Defined.

(** ** The environment checks *)

(** [validate_environment] never raises and answers [True] exactly when both
    variables are set to a non-empty string and the credentials file exists;
    the variables it reports as missing are the required ones that are unset
    or empty. *)
Theorem validate_environment_decides environ file_exists :
  validate_environment environ file_exists
  = Ok (negb (unset (getenv environ "GOOGLE_APPLICATION_CREDENTIALS")) &&
        negb (unset (getenv environ "GOOGLE_CLOUD_PROJECT")) &&
        file_exists (default "" (getenv environ "GOOGLE_APPLICATION_CREDENTIALS"))) /\
  (forall var, In var (missing_vars environ) <->
               In var required_vars /\ unset (getenv environ var) = true).
Proof.
  split; [|intros var; unfold missing_vars; apply List.filter_In].
  unfold validate_environment, missing_vars, required_vars. cbn [List.filter].
  destruct (getenv environ "GOOGLE_APPLICATION_CREDENTIALS") as [creds|];
    destruct (getenv environ "GOOGLE_CLOUD_PROJECT") as [project|];
    cbn [unset default];
    try destruct (String.eqb creds ""); try destruct (String.eqb project "");
    cbn; try reflexivity; destruct (file_exists creds); reflexivity.
Qed.

(** X9: the two modules check the environment alike: when
    [validate_environment] answers [False], [initialize_client] raises
    [ValueError] before any client is made; when it answers [True], the
    checks of [initialize_client] pass, the environment is left as it was,
    and the call fails only if the client constructor or the connection test
    does. *)
Theorem initialize_client_agrees_with_validation environ file_exists g :
  (validate_environment environ file_exists = Ok false ->
   initialize_client environ file_exists g = Raise ValueError) /\
  (validate_environment environ file_exists = Ok true ->
   exists project,
     getenv environ "GOOGLE_CLOUD_PROJECT" = Some project /\
     initialize_client environ file_exists g
     = match client_raises g project with
       | Some e => Raise e
       | None =>
           match list_collections g (Client project) with
           | Ok _ => Ok (Client project, environ)
           | Raise e => Raise e
           end
       end).
Proof.
  unfold validate_environment, initialize_client, missing_vars, required_vars,
    test_connection, getenv.
  cbn [List.filter].
  destruct (environ !! "GOOGLE_APPLICATION_CREDENTIALS") as [creds|] eqn:Ec;
    destruct (environ !! "GOOGLE_CLOUD_PROJECT") as [project|] eqn:Ep;
    cbn [unset getenv default].
  - destruct (String.eqb creds "") eqn:Ecreds, (String.eqb project "") eqn:Eproj;
      cbn; try (split; [reflexivity|discriminate]).
    destruct (file_exists creds); cbn; split; try discriminate; try reflexivity.
    intros _. exists project. split; [reflexivity|].
    rewrite insert_id by assumption.
    destruct (client_raises g project); [reflexivity|]. cbn.
    now destruct (list_collections g (Client project)).
  - destruct (String.eqb creds ""); cbn; split; try discriminate; reflexivity.
  - destruct (String.eqb project ""); cbn; split; try discriminate; reflexivity.
  - cbn. split; try discriminate; reflexivity.
Qed.

(** ** Loading a product file and indexing *)

(** X10: [load_products_from_file] answers [True] exactly when the file is read,
    parsed, and the value has a length; but the attribute [products_data] is
    replaced as soon as the file is parsed, also when the answer is [False]
    (a number, a boolean, [null]).  [index_products] then looks at the truth
    value of the attribute only: on a truthy value it runs the Firestore
    pipeline, which reads the pending products of the catalog and not the
    loaded value; on a falsy one it answers [False] and touches nothing. *)
Theorem load_then_index read_json file_path be em db :
  let loaded := load_products_from_file read_json file_path no_products in
  (snd loaded = true <->
   exists v n, read_json file_path = Ok v /\ json_len v = Ok n) /\
  (forall v, read_json file_path = Ok v ->
     fst loaded = v /\
     (json_truthy v = true ->
      index_products be em db (fst loaded) = store_products be em db) /\
     (json_truthy v = false ->
      index_products be em db (fst loaded) = (untouched db, false))) /\
  (forall e, read_json file_path = Raise e ->
     fst loaded = no_products /\
     index_products be em db (fst loaded) = (untouched db, false)).
Proof.
  cbv zeta. unfold load_products_from_file, index_products, untouched.
  destruct (read_json file_path) as [v|e0]; split; [|split| |split].
  - destruct (json_len v) as [n|] eqn:El; cbn; split; eauto; try discriminate.
    intros (v' & n & [= <-] & Hn). congruence.
  - intros v' [= <-]. destruct (json_len v); cbn;
      (split; [reflexivity|]; split; intros ->; reflexivity).
  - discriminate.
  - cbn. split; [discriminate|]. intros (v & n & H & _). discriminate.
  - discriminate.
  - intros e _. split; reflexivity.
Qed.

(** ** The search endpoints *)

Lemma make_hit_no_embedding {py : platform} be db q field doc_data :
  no_embedding_field db -> make_hit be db q field doc_data !! "embedding" = None.
Proof.
  intros Hdb. rewrite make_hit_field.
  destruct (catalog_fields be db doc_data !! "embedding") eqn:E.
  - apply catalog_fields_lookup in E as (k & d & Hl & Hd).
    rewrite (Hdb _ _ Hl) in Hd. discriminate.
  - unfold bare_hit. repeat (rewrite lookup_insert_ne by discriminate).
    apply lookup_empty.
Qed.

(** X11: [safe_remove_embedding] removes the key [embedding], which no search hit
    has: the list a single-modality search returns goes through it
    unchanged, each hit with its stored text and image vectors. *)
Theorem safe_remove_embedding_keeps_vectors {py : platform} be db q limit qt hits :
  no_embedding_field db ->
  vector_search be db q limit qt = Ok hits ->
  Server.safe_remove_embedding hits = hits /\
  (forall hit, In hit hits ->
     is_Some (hit !! "text_embedding") /\ is_Some (hit !! "image_embedding")).
Proof.
  intros Hdb Hs.
  assert (Hall : forall hit, In hit hits ->
            exists d, hit = make_hit be db q (vector_field_name qt) d).
  { intros hit Hin.
    destruct (vector_search_elements _ _ _ _ _ _ _ Hs Hin) as (docs & d & _ & _ & ->).
    eauto. }
  split.
  - unfold Server.safe_remove_embedding. clear Hs.
    induction hits as [|hit hits IH]; [reflexivity|]. cbn.
    destruct (Hall hit (or_introl eq_refl)) as [d ->].
    rewrite delete_id by now apply make_hit_no_embedding.
    rewrite IH; [reflexivity|]. intros h Hh. apply Hall. now right.
  - intros hit Hin. destruct (Hall hit Hin) as [d ->]. unfold make_hit.
    rewrite !lookup_union.
    rewrite !(lookup_insert_ne _ "id") by discriminate.
    rewrite !(lookup_insert_ne _ "similarity_score") by discriminate.
    rewrite lookup_insert_eq, lookup_insert_ne by discriminate.
    rewrite lookup_insert_eq.
    split; match goal with |- context [?m !! ?f ∪ _] => destruct (m !! f) end;
      cbn; eauto.
Qed.

Lemma safe_remove_embedding_keeps_vectors_witness :
  let _ : platform := Fixtures.exact in
  let hits := returned (vector_search Shop.store Fixtures.empty_db [1; 0]%float 30 "text") in
  vector_search Shop.store Fixtures.empty_db [1; 0]%float 30 "text" = Ok hits /\
  Server.safe_remove_embedding hits = hits.
Proof.
  intros py hits.
  assert (E : vector_search Shop.store Fixtures.empty_db [1; 0]%float 30 "text" = Ok hits)
    by (apply Ok_returned; vm_compute; reflexivity).
  split; [exact E|].
  destruct (safe_remove_embedding_keeps_vectors Shop.store Fixtures.empty_db
              [1; 0]%float 30 "text" hits) as [H _]; [|exact E|exact H].
  intros k d Hl. discriminate.
Defined.

(** X12: the handlers over [JinaCLIPEmbedding].  With the store unreachable all
    three answer an empty result list, not an error.  The image and the
    multimodal handler answer 500 when the upload cannot be decoded.  When
    the query embedding is there, the text and the image handler answer the
    hits of [vector_search], or 500 with a [TypeError] when the message
    about the first five hits cannot be built (an id, or a product name,
    that is not a string): that is the only error of the text handler. *)
Theorem search_handlers_absorb_failures {py : platform} be db mt mi query top_k alpha :
  let em := JinaCLIPEmbedding mt mi in
  (store_unreachable be db ->
   Server.search_products be db em query top_k = Server.Results [] /\
   forall img,
     Server.search_by_image be db em (Ok img) top_k = Server.Results [] /\
     Server.search_multimodal be db em query (Ok img) alpha top_k = Server.Results []) /\
  (forall e,
     Server.search_by_image be db em (Raise e) top_k = Server.HTTPException 500 e /\
     Server.search_multimodal be db em query (Raise e) alpha top_k
     = Server.HTTPException 500 e) /\
  (forall qe hits,
     mt (VStr query) "retrieval.query" = Ok qe -> qe <> [] ->
     vector_search be db qe top_k "text" = Ok hits ->
     Server.search_products be db em query top_k
     = if printable "id" hits then Server.Results (Server.safe_remove_embedding hits)
       else Server.HTTPException 500 TypeError) /\
  (forall img qe hits,
     mi img = Ok qe -> qe <> [] ->
     vector_search be db qe top_k "image" = Ok hits ->
     Server.search_by_image be db em (Ok img) top_k
     = if printable "product_name" hits
       then Server.Results (Server.safe_remove_embedding hits)
       else Server.HTTPException 500 TypeError) /\
  (forall status_code e,
     Server.search_products be db em query top_k = Server.HTTPException status_code e ->
     status_code = 500%Z /\ e = TypeError).
Proof.
  cbv zeta. split; [|split; [|split; [|split]]].
  - intros Hdown. unfold Server.search_products, Server.search_by_image,
      Server.search_multimodal.
    split.
    + destruct (searches_with_store_down be db mt mi query (RGB "") top_k alpha "image" Hdown)
        as (-> & _). reflexivity.
    + intros img.
      destruct (searches_with_store_down be db mt mi query img top_k alpha "image" Hdown)
        as (_ & Hi & Hm).
      cbn [mbind outcome_bind]. unfold mbind, outcome_bind. rewrite Hi, Hm.
      split; reflexivity.
  - intros e. split; reflexivity.
  - intros qe hits Hq Hne Hs. unfold Server.search_products.
    destruct (search_by_text_cases be db (JinaCLIPEmbedding mt mi) query top_k qe)
      as (hits' & Hs' & ->); [cbn; now rewrite Hq|assumption|].
    assert (hits' = hits) as -> by congruence.
    now destruct (printable "id" hits).
  - intros img qe hits Hq Hne Hs. unfold Server.search_by_image.
    change (Ok img ≫= _) with (search_by_image be db (JinaCLIPEmbedding mt mi)
                                               img top_k "image").
    destruct (search_by_image_cases be db (JinaCLIPEmbedding mt mi) img top_k "image" qe)
      as (hits' & Hs' & ->); [cbn; now rewrite Hq|assumption|].
    assert (hits' = hits) as -> by congruence.
    now destruct (printable "product_name" hits).
  - intros status_code e. unfold Server.search_products, Server.respond.
    destruct (search_by_text _ _ _ _ _) as [hits|e0] eqn:Es; [discriminate|].
    intros [= <- <-]. split; [reflexivity|].
    eapply search_by_text_raise. eassumption.
Qed.

(** ** The ranking and the order of the store *)

Lemma float_ltb_trans x y z :
  PrimFloat.ltb x y = true -> PrimFloat.ltb y z = true -> PrimFloat.ltb x z = true.
Proof.
  intros H1 H2. apply ltb_rank in H1 as (Hx & _ & H1).
  apply ltb_rank in H2 as (_ & Hz & H2). apply ltb_rank.
  repeat split; auto. unfold lex_lt in *. lia.
Qed.

Section StrictSort.
Context {A : Type} (key : A -> float).

Lemma insert_desc_strict x l :
  Forall ((differ key) x) l ->
  StronglySorted (strictly_desc key) l ->
  StronglySorted (strictly_desc key) (insert_desc key x l).
Proof.
  intros Hx Hs. induction Hs as [|y l Hs IH Hy]; cbn.
  - repeat constructor.
  - inversion Hx as [|? ? Hxy Hxl]; subst.
    destruct (PrimFloat.ltb (key x) (key y)) eqn:E.
    + constructor; [auto|].
      rewrite insert_desc_perm. constructor; assumption.
    + destruct Hxy as [Hxy|Hyx]; [congruence|].
      constructor; [now constructor|].
      constructor; [assumption|].
      eapply Forall_impl; [exact Hy|]. intros z Hz.
      unfold strictly_desc in *. eapply float_ltb_trans; eassumption.
Qed.

Lemma sort_desc_strict l :
  ForallOrdPairs (differ key) l -> StronglySorted (strictly_desc key) (sort_desc key l).
Proof.
  induction 1 as [|x l Hx _ IH]; [constructor|].
  change (sort_desc key (x :: l)) with (insert_desc key x (sort_desc key l)).
  apply insert_desc_strict; [|assumption]. now rewrite sort_desc_perm.
Qed.

Lemma strictly_sorted_unique l :
  forall l',
    StronglySorted (strictly_desc key) l -> StronglySorted (strictly_desc key) l' ->
    Permutation l l' -> l = l'.
Proof.
  induction l as [|a t IH]; intros l' Hs Hs' Hp.
  - apply Permutation_nil in Hp. now subst.
  - destruct l' as [|a' t'].
    { apply Permutation_sym, Permutation_nil in Hp. discriminate. }
    inversion Hs as [|? ? Hst Ha]; subst. inversion Hs' as [|? ? Hst' Ha']; subst.
    assert (Heq : a = a').
    { assert (Hin : In a (a' :: t')) by (eapply Permutation_in; [exact Hp|now left]).
      destruct Hin as [->|Hin]; [reflexivity|].
      assert (Hin' : In a' (a :: t))
        by (eapply Permutation_in; [apply Permutation_sym; exact Hp|now left]).
      destruct Hin' as [->|Hin']; [reflexivity|].
      rewrite List.Forall_forall in Ha, Ha'.
      specialize (Ha _ Hin'). specialize (Ha' _ Hin).
      unfold strictly_desc in *. apply float_ltb_asym in Ha. congruence. }
    subst a'. f_equal. apply IH; auto.
    eapply Permutation_cons_inv. exact Hp.
Qed.

Lemma differ_perm l l' :
  Permutation l l' -> ForallOrdPairs (differ key) l -> ForallOrdPairs (differ key) l'.
Proof.
  induction 1 as [|x l l' Hp IH|x y l|l l' l'' _ IH1 _ IH2]; intros H.
  - assumption.
  - inversion H; subst. constructor; [now rewrite <- Hp|auto].
  - inversion H as [|? ? Hy Hr]; subst. inversion Hr as [|? ? Hx Hl]; subst.
    inversion Hy as [|? ? Hyx Hyl]; subst.
    constructor; [constructor; [|assumption]|constructor; assumption].
    unfold differ in *. tauto.
  - auto.
Qed.

Lemma sort_desc_order_independent l l' :
  Permutation l l' -> ForallOrdPairs (differ key) l -> sort_desc key l = sort_desc key l'.
Proof.
  intros Hp Hd. apply strictly_sorted_unique.
  - now apply sort_desc_strict.
  - apply sort_desc_strict. eapply differ_perm; eassumption.
  - now rewrite !sort_desc_perm.
Qed.
End StrictSort.

Lemma differ_not_nan {A} (key : A -> float) l :
  ForallOrdPairs (differ key) l -> 2 <= length l ->
  Forall (fun x => not_nan (key x)) l.
Proof.
  assert (Hnan : forall a b, differ key a b -> not_nan (key a) /\ not_nan (key b)).
  { intros a b [Hd|Hd]; apply ltb_rank in Hd as (? & ? & _); auto. }
  intros Hd Hlen. destruct Hd as [|x l Hx _]; [cbn in Hlen; lia|].
  destruct l as [|y l]; [cbn in Hlen; lia|]. constructor.
  - inversion Hx; subst. now apply (Hnan x y).
  - eapply Forall_impl; [exact Hx|]. intros z Hz. now apply (Hnan x z).
Qed.

Lemma short_perm {A} (l l' : list A) : length l <= 1 -> Permutation l' l -> l' = l.
Proof.
  destruct l as [|x [|y l]]; cbn; intros Hlen Hp; try lia.
  - now apply Permutation_nil.
  - apply Permutation_sym in Hp. now apply Permutation_length_1_inv in Hp.
Qed.

Lemma sort_desc_short {A} (key : A -> float) l : length l <= 1 -> sort_desc key l = l.
Proof. destruct l as [|x [|y l]]; cbn; intros Hlen; try lia; reflexivity. Qed.

(** X13: when the recomputed scores of the candidates are pairwise different,
    the hit list does not depend on the order in which the store returned
    them: the store chooses the candidates, the ranking is the engine's. *)
Theorem ranking_ignores_store_order {py : platform} be db q limit qt docs docs' :
  find_nearest be (vectors db) (vector_field_name qt) q limit = Ok docs ->
  no_score_field db ->
  Permutation docs docs' ->
  ForallOrdPairs (scores_differ q (vector_field_name qt)) docs ->
  vector_search be db q limit qt
  = Ok (sort_desc hit_score (map (make_hit be db q (vector_field_name qt)) docs')).
Proof.
  intros Hn Hdb Hp Hd.
  set (mk := make_hit be db q (vector_field_name qt)).
  assert (Hdiffer : ForallOrdPairs (differ hit_score) (map mk docs)).
  { clear Hp Hn. induction Hd as [|d docs Hd _ IH]; cbn; constructor; [|assumption].
    apply List.Forall_forall. intros h Hh. apply in_map_iff in Hh as (d' & <- & Hd').
    rewrite List.Forall_forall in Hd. specialize (Hd _ Hd').
    unfold differ, mk. rewrite !make_hit_score by assumption. exact Hd. }
  destruct (vector_search_hits be db q limit qt docs Hn Hdb)
    as (hits & -> & Hperm & Hsorted).
  fold mk in Hperm, Hsorted. f_equal.
  destruct (le_lt_dec (length (map mk docs)) 1) as [Hshort|Hlong].
  - rewrite (short_perm _ _ Hshort Hperm).
    rewrite <- (short_perm (map mk docs) (map mk docs') Hshort)
      by (apply Permutation_map, Permutation_sym, Hp).
    rewrite sort_desc_short; [reflexivity|].
    rewrite (short_perm (map mk docs) (map mk docs') Hshort); [assumption|].
    apply Permutation_map, Permutation_sym, Hp.
  - rewrite Hsorted by (apply differ_not_nan; [assumption|lia]).
    apply sort_desc_order_independent; [now apply Permutation_map|assumption].
Qed.

Lemma ranking_ignores_store_order_witness :
  let _ : platform := Fixtures.exact in
  Shop.ids (vector_search Shop.store Fixtures.empty_db [1; 0]%float 30 "text")
  = Shop.ids (Ok (sort_desc hit_score
                    (map (make_hit Shop.store Fixtures.empty_db [1; 0]%float
                                   "text_embedding") [Shop.B; Shop.A]))).
Proof.
  intros py. apply (f_equal Shop.ids).
  apply (ranking_ignores_store_order Shop.store Fixtures.empty_db [1; 0]%float 30
           "text" [Shop.A; Shop.B] [Shop.B; Shop.A]).
  - reflexivity.
  - exact empty_db_no_score_field.
  - apply perm_swap.
  - constructor; [constructor; [|constructor] | constructor; constructor].
    right. vm_compute. reflexivity.
Defined.
